(** * Usage ledger of open_webui: a shallow embedding and its properties

    Sources embedded here:
    - [backend/open_webui/utils/usage_tracking.py]: [MODEL_PRICING],
      [calculate_cost], [locked_json_file], [track_usage], [get_user_usage],
      [cleanup_old_sessions];
    - [backend/open_webui/routers/usage.py]: [reset_daily_usage].

    Modelling conventions.
    - Python [int] is [Z]; Python [float] is IEEE binary64, i.e. Rocq's
      primitive [float], with [+], [*] the primitive operations.
    - [int / int] is Python's true division: the correctly rounded quotient,
      [OverflowError] when that quotient is too large for a float.
    - [str] is [string]; model identifiers are the UTF-8 bytes of the Python
      string.  [str.lower] is modelled on ASCII letters; the pricing patterns
      are ASCII, and no non-ASCII letter lower-cases to a character of one of
      them, so pattern matching is unaffected.
    - dictionaries are [gmap string _]; the JSON document is a typed store.
      The persisted file is absent, empty, unparsable, or a JSON document of
      the expected shape.
    - a naive [datetime] is an integer number of microseconds on an unbounded
      time line; [isoformat]/[fromisoformat] are the identity on it.
    - exceptions are values of [exn]; fallible code returns [result]. *)

From Stdlib Require Import ZArith Floats Lia Ascii String.
From stdpp Require Import gmap strings list fin_maps.

Open Scope Z_scope.

(** ** Exceptions and results *)

Inductive exn :=
| OverflowError
| ZeroDivisionError
| JSONDecodeError
| NameError
| TypeError.

Inductive result (A : Type) :=
| Ok (a : A)
| Raise (e : exn).
Arguments Ok {A} a.
Arguments Raise {A} e.

#[global] Instance result_ret : MRet result := λ A a, Ok a.
#[global] Instance result_bind : MBind result := λ A B f m,
  match m with
  | Ok a => f a
  | Raise e => Raise e
  end.

(** ** Python arithmetic used by the ledger *)

(** An integer as an (unrounded) binary number [m * 2^0]. *)
Definition Z2SF (z : Z) : spec_float :=
  match z with
  | Z0 => S754_zero false
  | Zpos p => S754_finite false p 0
  | Zneg p => S754_finite true p 0
  end.

(** Exact conversion of an integer of magnitude below [2^53]. *)
Definition float_of_small (z : Z) : float :=
  match z with
  | Z0 => 0%float
  | Zpos _ => PrimFloat.of_uint63 (Uint63.of_Z z)
  | Zneg p => (- PrimFloat.of_uint63 (Uint63.of_Z (Zpos p)))%float
  end.

(** [a / b] on Python ints.  CPython divides the two doubles when both
    operands are exactly representable (magnitude below [2^53]); otherwise it
    rounds the exact quotient once, and raises [OverflowError] when the
    rounded quotient exceeds the largest double. *)
Definition int_truediv (a b : Z) : result float :=
  if b =? 0 then Raise ZeroDivisionError
  else if (Z.abs a <? 2 ^ 53) && (Z.abs b <? 2 ^ 53)
  then Ok (float_of_small a / float_of_small b)%float
  else match SFdiv prec emax (Z2SF a) (Z2SF b) with
       | S754_infinity _ => Raise OverflowError
       | q => Ok (SF2Prim q)
       end.

(** ** Strings: [str.lower] and the substring test [pat in s] *)

Definition lower_ascii (c : ascii) : ascii :=
  let n := nat_of_ascii c in
  if ((65 <=? n) && (n <=? 90))%nat then ascii_of_nat (n + 32) else c.

Fixpoint lower (s : string) : string :=
  match s with
  | EmptyString => EmptyString
  | String c s' => String (lower_ascii c) (lower s')
  end.

Fixpoint contains (pat s : string) : bool :=
  String.prefix pat s ||
  match s with
  | EmptyString => false
  | String _ s' => contains pat s'
  end.

(** Python truthiness of a [str] and of an [Optional[str]]. *)
Definition truthy (s : string) : bool :=
  match s with EmptyString => false | _ => true end.

Definition truthy_opt (o : option string) : bool :=
  match o with Some s => truthy s | None => false end.

(** ** Pricing table and cost calculator *)

Record pricing := { input : float; output : float }.

(** [MODEL_PRICING]: a dict literal, iterated in declaration order. *)
Definition MODEL_PRICING : list (string * pricing) :=
  [ ("claude-sonnet-4-5", {| input := 3; output := 15 |});
    ("claude-sonnet-3-5", {| input := 3; output := 15 |});
    ("claude-opus-4", {| input := 15; output := 75 |});
    ("gpt-4", {| input := 30; output := 60 |});
    ("gpt-4-turbo", {| input := 10; output := 30 |});
    ("gpt-3.5-turbo", {| input := 0.5; output := 1.5 |}) ]%float.

(** [(input_tokens / 1_000_000) * p_in + (output_tokens / 1_000_000) * p_out],
    evaluated left to right. *)
Definition cost_at (p_in p_out : float) (input_tokens output_tokens : Z)
  : result float :=
  x ← int_truediv input_tokens 1000000;
  let input_cost := (x * p_in)%float in
  y ← int_truediv output_tokens 1000000;
  let output_cost := (y * p_out)%float in
  mret (input_cost + output_cost)%float.

(** The [for known_model in MODEL_PRICING.keys()] loop, with its early
    return, followed by the default pricing of lines 61-63. *)
Fixpoint calculate_cost_loop (table : list (string * pricing))
    (base_model : string) (input_tokens output_tokens : Z) : result float :=
  match table with
  | [] => cost_at 3 15 input_tokens output_tokens
  | (known_model, pr) :: rest =>
      if contains known_model base_model
      then cost_at (input pr) (output pr) input_tokens output_tokens
      else calculate_cost_loop rest base_model input_tokens output_tokens
  end.

Definition calculate_cost (model : string) (input_tokens output_tokens : Z)
  : result float :=
  let base_model := lower model in
  calculate_cost_loop MODEL_PRICING base_model input_tokens output_tokens.

(** A pattern matches a model identifier: case-insensitive substring. *)
Definition matches (pat model : string) : Prop :=
  contains pat (lower model) = true.

(** ** Data model of the persisted store *)

(** A naive [datetime], in microseconds. *)
Definition datetime := Z.

Record DailyBucket := {
  d_tokens_input : Z;
  d_tokens_output : Z;
  d_tokens_total : Z;
  d_cost : float }.

Record MonthlyBucket := {
  m_tokens_total : Z;
  m_cost : float }.

(** [started_at] and [last_updated] are keys that a session object may
    lack: [track_usage] writes the first on creation only and the second on
    every touch; [cleanup_old_sessions] reads both with [dict.get]. *)
Record SessionBucket := {
  s_tokens_input : Z;
  s_tokens_output : Z;
  s_tokens_total : Z;
  s_cost : float;
  started_at : option datetime;
  last_updated : option datetime }.

Record UsageEvent := {
  model : string;
  timestamp : datetime;
  input_tokens : Z;
  output_tokens : Z;
  cost : float;
  session_id : option string }.

Record UserLedger := {
  daily : gmap string DailyBucket;
  monthly : gmap string MonthlyBucket;
  sessions : gmap string SessionBucket;
  history : list UsageEvent }.

Abbreviation UsageStore := (gmap string UserLedger).

(** The dict literal [{"daily": {}, "monthly": {}, "sessions": {},
    "history": []}]. *)
Definition EMPTY_LEDGER : UserLedger :=
  {| daily := ∅; monthly := ∅; sessions := ∅; history := [] |}.

(** Content of [USER_USAGE_FILE]. *)
Inductive file_content :=
| NoFile                          (* [os.path.exists] is false *)
| EmptyFile                       (* zero bytes *)
| Unparsable                      (* bytes that are not a JSON document *)
| Json (data : UsageStore).

(** [json.load(f)] on an opened file. *)
Definition json_load (f : file_content) : result UsageStore :=
  match f with
  | Json data => Ok data
  | _ => Raise JSONDecodeError
  end.

(** The part of [locked_json_file] that runs before the lock is taken:
    a missing file is created holding [{}]. *)
Definition create_if_missing (f : file_content) : file_content :=
  match f with
  | NoFile => Json ∅
  | _ => f
  end.

(** ** Ledger aggregator: [track_usage] *)

(** The three clock readings of lines 85-87. *)
Record clock := {
  now_iso : datetime;             (* [datetime.now().isoformat()] *)
  today : string;                 (* [date.today().isoformat()] *)
  current_month : string }.       (* [datetime.now().strftime("%Y-%m")] *)

Definition new_daily : DailyBucket :=
  {| d_tokens_input := 0; d_tokens_output := 0; d_tokens_total := 0;
     d_cost := 0 |}.

Definition new_monthly : MonthlyBucket :=
  {| m_tokens_total := 0; m_cost := 0 |}.

Definition new_session (ts : datetime) : SessionBucket :=
  {| s_tokens_input := 0; s_tokens_output := 0; s_tokens_total := 0;
     s_cost := 0; started_at := Some ts; last_updated := None |}.

(** Lines 115-118. *)
Definition bump_daily (b : DailyBucket) (i o : Z) (c : float) : DailyBucket :=
  {| d_tokens_input := d_tokens_input b + i;
     d_tokens_output := d_tokens_output b + o;
     d_tokens_total := d_tokens_total b + (i + o);
     d_cost := (d_cost b + c)%float |}.

(** Lines 127-128. *)
Definition bump_monthly (b : MonthlyBucket) (i o : Z) (c : float)
  : MonthlyBucket :=
  {| m_tokens_total := m_tokens_total b + (i + o);
     m_cost := (m_cost b + c)%float |}.

(** Lines 141-145. *)
Definition bump_session (b : SessionBucket) (i o : Z) (c : float)
    (ts : datetime) : SessionBucket :=
  {| s_tokens_input := s_tokens_input b + i;
     s_tokens_output := s_tokens_output b + o;
     s_tokens_total := s_tokens_total b + (i + o);
     s_cost := (s_cost b + c)%float;
     started_at := started_at b;
     last_updated := Some ts |}.

(** [h[-1000:]] guarded by [len(h) > 1000] (lines 158-159). *)
Definition trim_history (h : list UsageEvent) : list UsageEvent :=
  if (1000 <? length h)%nat then drop (length h - 1000) h else h.

(** Lines 106-159 on the user's ledger. *)
Definition update_ledger (clk : clock) (mdl : string) (i o : Z)
    (sid : option string) (c : float) (user_data : UserLedger) : UserLedger :=
  let daily_b := default new_daily (daily user_data !! today clk) in
  let monthly_b := default new_monthly (monthly user_data !! current_month clk) in
  let sessions' :=
    match sid with
    | Some s =>
        if truthy s then
          let session_b := default (new_session (now_iso clk))
                                   (sessions user_data !! s) in
          <[s := bump_session session_b i o c (now_iso clk)]> (sessions user_data)
        else sessions user_data
    | None => sessions user_data
    end in
  let entry := {| model := mdl; timestamp := now_iso clk; input_tokens := i;
                  output_tokens := o; cost := c; session_id := sid |} in
  {| daily := <[today clk := bump_daily daily_b i o c]> (daily user_data);
     monthly := <[current_month clk := bump_monthly monthly_b i o c]>
                  (monthly user_data);
     sessions := sessions';
     history := trim_history (history user_data ++ [entry]) |}.

(** Lines 95-159: the in-memory update made inside the critical section. *)
Definition apply_usage (clk : clock) (user_email mdl : string) (i o : Z)
    (sid : option string) (c : float) (data : UsageStore) : UsageStore :=
  let user_data := default EMPTY_LEDGER (data !! user_email) in
  <[user_email := update_ledger clk mdl i o sid c user_data]> data.

(** What [json.load] yields under [except json.JSONDecodeError: data = {}]. *)
Definition load_or_empty (f : file_content) : UsageStore :=
  match json_load f with
  | Ok data => data
  | Raise _ => ∅
  end.

(** [track_usage]: any exception is logged and swallowed (line 170); the
    only statement of the typed model that can raise is [calculate_cost],
    before the file is opened. *)
Definition track_usage (clk : clock) (user_email mdl : string) (i o : Z)
    (sid : option string) (f : file_content) : file_content :=
  match calculate_cost mdl i o with
  | Raise _ => f
  | Ok c =>
      let data := load_or_empty (create_if_missing f) in
      Json (apply_usage clk user_email mdl i o sid c data)
  end.

(** ** Snapshot reader: [get_user_usage] *)

(** [try: body except Exception: handler]. *)
Definition try_except {A} (body : result A) (handler : exn → result A)
  : result A :=
  match body with
  | Ok a => Ok a
  | Raise e => handler e
  end.

Definition get_user_usage_body (user_email : string) (f : file_content)
  : result UserLedger :=
  match f with
  | NoFile => Ok EMPTY_LEDGER                       (* lines 177-183 *)
  | _ =>
      data ← json_load f;
      mret (default EMPTY_LEDGER (data !! user_email))
  end.

Definition get_user_usage (user_email : string) (f : file_content)
  : result UserLedger :=
  try_except (get_user_usage_body user_email f) (λ _, Ok EMPTY_LEDGER).

(** ** Retention sweeper: [cleanup_old_sessions] *)

(** [timedelta(days=keep_days)], in microseconds. *)
Definition timedelta_days (keep_days : Z) : Z := keep_days * 86400000000.

(** [session_data.get("last_updated", session_data.get("started_at"))]. *)
Definition session_stamp (b : SessionBucket) : option datetime :=
  match last_updated b with
  | Some t => Some t
  | None => started_at b
  end.

(** Lines 217-221: the session is marked for deletion. *)
Definition is_stale (cutoff_date : datetime) (b : SessionBucket) : bool :=
  match session_stamp b with
  | Some session_date => session_date <? cutoff_date
  | None => false
  end.

(** The list built by the loop of lines 216-221. *)
Definition sessions_to_delete (cutoff_date : datetime)
    (sessions : gmap string SessionBucket) : list string :=
  (filter (λ kv, is_stale cutoff_date kv.2 = true) (map_to_list sessions)).*1.

(** Lines 223-224: [for session_id in sessions_to_delete: del ...]. *)
Definition delete_all (keys : list string) (sessions : gmap string SessionBucket)
  : gmap string SessionBucket :=
  foldl (λ m k, delete k m) sessions keys.

Definition sweep_ledger (cutoff_date : datetime) (l : UserLedger) : UserLedger :=
  {| daily := daily l;
     monthly := monthly l;
     sessions := delete_all (sessions_to_delete cutoff_date (sessions l))
                            (sessions l);
     history := history l |}.

(** [now] is the reading of [datetime.now()] at line 207.  [json.load] is
    not guarded here: on an empty or unparsable file the exception reaches
    the outer handler and nothing is written. *)
Definition cleanup_old_sessions (now : datetime) (user_email : string)
    (keep_days : Z) (f : file_content) : file_content :=
  let cutoff_date := now - timedelta_days keep_days in
  let f1 := create_if_missing f in
  match json_load f1 with
  | Raise _ => f1
  | Ok data =>
      match data !! user_email with
      | Some l => Json (<[user_email := sweep_ledger cutoff_date l]> data)
      | None => f1
      end
  end.

(** ** Daily reset endpoint: [reset_daily_usage] (routers/usage.py) *)

Section ResetDaily.
(** The type of the per-date entries of the document the endpoint reads. *)
Context {V : Type}.

Abbreviation DailyCosts := (gmap string (gmap string V)).

(** The objects that module-level names of routers/usage.py can denote,
    as far as the endpoint distinguishes them. *)
Inductive pyobj :=
| PyOpaque                       (* a module, class, function, logger *)
| PyStr (s : string)
| PyJsonReader (read : string → DailyCosts → DailyCosts).

(** Resolution of a global name: the module namespace (no builtin is
    called [safe_read_json] or [DAILY_COST_FILE]). *)
Definition load_global (globals : list (string * pyobj)) (name : string)
  : result pyobj :=
  match list_find (λ kv, kv.1 = name) globals with
  | Some (_, (_, v)) => Ok v
  | None => Raise NameError
  end.

Inductive reset_response :=
| ResetDone (user_id date : string)       (* ['success': True] *)
| ResetNoData (user_id date : string)     (* ['success': False] *)
| HTTP_500.                               (* [HTTPException(500)] *)

(** Lines 331-357.  The second component is the file written by lines
    341-343, if any: its path and its new content. *)
Definition reset_daily_usage_body (globals : list (string * pyobj))
    (target_date : option string) (user_id today_iso : string)
  : result (reset_response * option (string * DailyCosts)) :=
  let reset_date := if truthy_opt target_date
                    then default today_iso target_date else today_iso in
  reader ← load_global globals "safe_read_json";
  path ← load_global globals "DAILY_COST_FILE";
  match reader, path with
  | PyJsonReader read, PyStr p =>
      let daily_costs := read p ∅ in
      match daily_costs !! user_id with
      | Some per_user =>
          match per_user !! reset_date with
          | Some _ =>
              mret (ResetDone user_id reset_date,
                    Some (p, <[user_id := delete reset_date per_user]>
                               daily_costs))
          | None => mret (ResetNoData user_id reset_date, None)
          end
      | None => mret (ResetNoData user_id reset_date, None)
      end
  | _, _ => Raise TypeError
  end.

(** Lines 359-364: every exception becomes an HTTP 500 answer. *)
Definition reset_daily_usage (globals : list (string * pyobj))
    (target_date : option string) (user_id today_iso : string)
  : reset_response * option (string * DailyCosts) :=
  match reset_daily_usage_body globals target_date user_id today_iso with
  | Ok r => r
  | Raise _ => (HTTP_500, None)
  end.

(** The names bound at module level in routers/usage.py: its imports,
    assignments, classes and functions, in order of appearance. *)
Definition usage_router_globals : list (string * pyobj) :=
  [ ("os", PyOpaque); ("json", PyOpaque); ("logging", PyOpaque);
    ("datetime", PyOpaque); ("date", PyOpaque); ("Optional", PyOpaque);
    ("Dict", PyOpaque); ("Any", PyOpaque); ("Path", PyOpaque);
    ("APIRouter", PyOpaque); ("Depends", PyOpaque);
    ("HTTPException", PyOpaque); ("status", PyOpaque);
    ("get_verified_user", PyOpaque); ("BaseModel", PyOpaque);
    ("log", PyOpaque); ("router", PyOpaque);
    ("get_user_usage", PyOpaque); ("track_usage", PyOpaque);
    ("DATA_DIR", PyStr "data");
    ("DailyUsageStats", PyOpaque); ("MonthlyUsageStats", PyOpaque);
    ("SessionUsageStats", PyOpaque); ("UsageStatsResponse", PyOpaque);
    ("get_daily_stats", PyOpaque); ("get_monthly_stats", PyOpaque);
    ("get_session_stats", PyOpaque); ("get_usage_stats", PyOpaque);
    ("get_daily_history", PyOpaque); ("get_monthly_history", PyOpaque);
    ("TrackUsageRequest", PyOpaque); ("track_usage_endpoint", PyOpaque);
    ("reset_daily_usage", PyOpaque) ].
End ResetDaily.
Arguments pyobj V : clear implicits.
Arguments reset_response : clear implicits.

(** ** Calls and sequential runs *)

(** The arguments of one [track_usage] call together with the clock
    readings it makes. *)
Record call := {
  c_clock : clock;
  c_user : string;
  c_model : string;
  c_input : Z;
  c_output : Z;
  c_session : option string }.

Definition call_cost (c : call) : result float :=
  calculate_cost (c_model c) (c_input c) (c_output c).

Definition track_call (f : file_content) (c : call) : file_content :=
  track_usage (c_clock c) (c_user c) (c_model c) (c_input c) (c_output c)
              (c_session c) f.

(** Calls made one after the other. *)
Definition track_calls (cs : list call) (f : file_content) : file_content :=
  foldl track_call f cs.

(** The history entry appended by a call whose cost is [x]. *)
Definition entry_of (c : call) (x : float) : UsageEvent :=
  {| model := c_model c; timestamp := now_iso (c_clock c);
     input_tokens := c_input c; output_tokens := c_output c;
     cost := x; session_id := c_session c |}.

(** The user's ledger as stored in the file, if any. *)
Definition ledger_of (user_email : string) (f : file_content)
  : option UserLedger :=
  match f with
  | Json data => data !! user_email
  | _ => None
  end.

(** ** Concurrent callers of [track_usage]

    Each caller runs the statements of [track_usage] and
    [locked_json_file] in program order; callers are interleaved at the
    granularity of the file-system operations. *)

Inductive pc :=
| AtCost                           (* line 84 *)
| AtExists (c : float)             (* [os.path.exists], line 37 *)
| AtCreate (c : float)             (* [open(path, 'w')] and [json.dump({})] *)
| AtLock (c : float)               (* [open(path, 'r+')] and [flock(LOCK_EX)] *)
| AtLoad (c : float)               (* [json.load], lines 90-93 *)
| AtSave (c : float) (data : UsageStore)   (* lines 95-166 *)
| AtUnlock                         (* [flock(LOCK_UN)], [close] *)
| Finished.

Record system := {
  file : file_content;
  lock : option nat;               (* the caller holding the flock *)
  pcs : list pc }.

(** One step of caller [i], which runs call [c] and stands at [p].
    [None]: the caller cannot move (it has finished, or it waits for the
    lock). *)
Definition step_caller (i : nat) (c : call) (p : pc) (f : file_content)
    (lk : option nat) : option (pc * file_content * option nat) :=
  match p with
  | AtCost =>
      match call_cost c with
      | Ok x => Some (AtExists x, f, lk)
      | Raise _ => Some (Finished, f, lk)
      end
  | AtExists x =>
      match f with
      | NoFile => Some (AtCreate x, f, lk)
      | _ => Some (AtLock x, f, lk)
      end
  | AtCreate x => Some (AtLock x, Json ∅, lk)
  | AtLock x =>
      match lk with
      | None => Some (AtLoad x, f, Some i)
      | Some _ => None
      end
  | AtLoad x => Some (AtSave x (load_or_empty f), f, lk)
  | AtSave x data =>
      Some (AtUnlock,
            Json (apply_usage (c_clock c) (c_user c) (c_model c) (c_input c)
                              (c_output c) (c_session c) x data),
            lk)
  | AtUnlock => Some (Finished, f, None)
  | Finished => None
  end.

Definition step (cs : list call) (i : nat) (s : system) : option system :=
  c ← cs !! i;
  p ← pcs s !! i;
  '(p', f', lk') ← step_caller i c p (file s) (lock s);
  Some {| file := f'; lock := lk'; pcs := <[i := p']> (pcs s) |}.

(** A schedule names the caller that moves at each step. *)
Fixpoint run (cs : list call) (schedule : list nat) (s : system)
  : option system :=
  match schedule with
  | [] => Some s
  | i :: rest => s' ← step cs i s; run cs rest s'
  end.

Definition initial (cs : list call) (f : file_content) : system :=
  {| file := f; lock := None; pcs := replicate (length cs) AtCost |}.

Definition all_finished (s : system) : Prop :=
  Forall (λ p, p = Finished) (pcs s).

(** ** Vocabulary of the statements *)

(** The ledger of a user in the store a critical section starts from: the
    user's entry, or the empty ledger that line 97 creates. *)
Definition prior (user_email : string) (f : file_content) : UserLedger :=
  default EMPTY_LEDGER (load_or_empty f !! user_email).

(** The effect of a completed call on its user's ledger. *)
Definition apply_recorded (l : UserLedger) (cx : call * float) : UserLedger :=
  update_ledger (c_clock cx.1) (c_model cx.1) (c_input cx.1) (c_output cx.1)
                (c_session cx.1) cx.2 l.

Definition daily_consistent (b : DailyBucket) : Prop :=
  d_tokens_total b = d_tokens_input b + d_tokens_output b.

Definition ledger_consistent (l : UserLedger) : Prop :=
  ∀ d b, daily l !! d = Some b → daily_consistent b.

Definition store_consistent (data : UsageStore) : Prop :=
  ∀ u l, data !! u = Some l → ledger_consistent l.

(** The invariant on the store that a critical section loads from [f]
    (and, for a file just written, on the store that was saved). *)
Definition file_consistent (f : file_content) : Prop :=
  store_consistent (load_or_empty f).

(** The operations that write the ledger file. *)
Inductive op :=
| Record (c : call)
| Sweep (now : datetime) (user_email : string) (keep_days : Z).

Definition apply_op (f : file_content) (o : op) : file_content :=
  match o with
  | Record c => track_call f c
  | Sweep now u k => cleanup_old_sessions now u k f
  end.

(** The calls of a sequence that complete, each with its cost: a call
    whose cost computation raises is logged and skipped (line 170). *)
Definition recorded (cs : list call) : list (call * float) :=
  omap (λ c, match call_cost c with
             | Ok x => Some (c, x)
             | Raise _ => None
             end) cs.

(** The usage events a sequence of calls records, in call order. *)
Definition events (cs : list call) : list UsageEvent :=
  map (λ cx, entry_of cx.1 cx.2) (recorded cs).

(** Token total of a list of events. *)
Fixpoint total_tokens (es : list UsageEvent) : Z :=
  match es with
  | [] => 0
  | e :: es' => (input_tokens e + output_tokens e) + total_tokens es'
  end.

(** Running binary64 sum [((z + x1) + x2) + ...], in list order. *)
Definition fsum (z : float) (xs : list float) : float :=
  foldl PrimFloat.add z xs.

(** The last [n] elements of a list, oldest first. *)
Definition last_n {A} (n : nat) (l : list A) : list A :=
  drop (length l - n) l.

Definition small (c : call) : Prop :=
  Z.abs (c_input c) < 2 ^ 53 ∧ Z.abs (c_output c) < 2 ^ 53.

Definition bump_daily_with (b : DailyBucket) (cx : call * float) : DailyBucket :=
  bump_daily b (c_input cx.1) (c_output cx.1) cx.2.

Definition bump_monthly_with (b : MonthlyBucket) (cx : call * float)
  : MonthlyBucket :=
  bump_monthly b (c_input cx.1) (c_output cx.1) cx.2.

Definition entry_with (cx : call * float) : UsageEvent := entry_of cx.1 cx.2.

(** A clock reading and calls used to exercise the statements below. *)
Definition clock_at (ts : datetime) : clock :=
  {| now_iso := ts; today := "2026-11-04"; current_month := "2026-11" |}.

Definition call_at (ts : datetime) (mdl : string) (i o : Z)
    (sid : option string) : call :=
  {| c_clock := clock_at ts; c_user := "a@x.com"; c_model := mdl;
     c_input := i; c_output := o; c_session := sid |}.

(** The spec's words: the session's [last_updated] timestamp, or its
    [started_at] if it was never updated, is older than the cutoff. *)
Definition older_than (cutoff : datetime) (b : SessionBucket) : Prop :=
  ∃ t, (last_updated b = Some t
        ∨ (last_updated b = None ∧ started_at b = Some t))
       ∧ t < cutoff.


Definition caller_a : call := call_at 0 "gpt-4" 1000000 1000000 None.
Definition caller_b : call := call_at 1 "gpt-4" 1000000 0 None.

(** Caller 0 finds no file and is about to create it; caller 1 finds no
    file either, creates it, records and finishes; caller 0 then creates
    the file again, truncating it, and records. *)
Definition lost_update_schedule : list nat :=
  [0; 0; 1; 1; 1; 1; 1; 1; 1; 0; 0; 0; 0; 0]%nat.

(** The caller is between [flock(LOCK_EX)] and [flock(LOCK_UN)]. *)
Definition holds_lock (p : pc) : bool :=
  match p with
  | AtLoad _ | AtSave _ _ | AtUnlock => true
  | _ => false
  end.

(** The caller has left its critical section, or failed before it. *)
Definition committed (p : pc) : bool :=
  match p with
  | AtUnlock | Finished => true
  | _ => false
  end.

(** The calls of the callers listed in [order]. *)
Definition calls_of (cs : list call) (order : list nat) : list call :=
  omap (λ i, cs !! i) order.

(** What a caller running [c] knows at [p], the file holding [f]. *)
Definition pc_ok (c : call) (f : file_content) (p : pc) : Prop :=
  match p with
  | AtExists x | AtLock x | AtLoad x => call_cost c = Ok x
  | AtSave x data => call_cost c = Ok x ∧ data = load_or_empty f
  | AtCreate _ => False
  | AtCost | AtUnlock | Finished => True
  end.

(** Invariant of the interleavings that start with the file present:
    the file is the result of the committed calls run one after the other
    in commit order, and only the lock holder stands inside the critical
    section. *)
Record serial_inv (cs : list call) (f0 : file_content) (s : system)
    (order : list nat) : Prop := {
  inv_length : length (pcs s) = length cs;
  inv_exists : file s ≠ NoFile;
  inv_file : file s = track_calls (calls_of cs order) f0;
  inv_nodup : NoDup order;
  inv_order : ∀ i, i ∈ order ↔ ∃ p, pcs s !! i = Some p ∧ committed p = true;
  inv_lock : ∀ i p, pcs s !! i = Some p → holds_lock p = true → lock s = Some i;
  inv_pc : ∀ i p c, pcs s !! i = Some p → cs !! i = Some c → pc_ok c (file s) p }.

(** ** Reporting endpoints (routers/usage.py) *)

(** [x / y] on Python floats. *)
Definition float_truediv (x y : float) : result float :=
  if (y =? 0)%float then Raise ZeroDivisionError else Ok (x / y)%float.

(** [max(0.0, x)]: the second argument replaces the first only when it
    compares greater. *)
Definition max_zero (x : float) : float :=
  if (0 <? x)%float then x else 0%float.

Record DailyUsageStats := {
  ds_tokens_input : Z;
  ds_tokens_output : Z;
  ds_tokens_total : Z;
  ds_cost : float;
  ds_date : string }.

Record MonthlyUsageStats := {
  ms_tokens_total : Z;
  ms_cost : float;
  ms_budget : float;
  ms_remaining : float;
  ms_percent_used : float }.

Record SessionUsageStats := {
  ss_tokens_input : Z;
  ss_tokens_output : Z;
  ss_tokens_total : Z;
  ss_cost : float }.

Record UsageStatsResponse := {
  r_daily : DailyUsageStats;
  r_monthly : MonthlyUsageStats;
  r_session : SessionUsageStats;
  r_budget_daily : float;
  r_budget_monthly : float }.

(** [get_daily_stats]; [today_iso] is [date.today().isoformat()]. *)
Definition get_daily_stats (today_iso user_id : string) (f : file_content)
  : result DailyUsageStats :=
  user_data ← get_user_usage user_id f;
  let daily_stats := default new_daily (daily user_data !! today_iso) in
  mret {| ds_tokens_input := d_tokens_input daily_stats;
          ds_tokens_output := d_tokens_output daily_stats;
          ds_tokens_total := d_tokens_total daily_stats;
          ds_cost := d_cost daily_stats;
          ds_date := today_iso |}.

(** [get_monthly_stats]; [month] is [datetime.now().strftime("%Y-%m")]. *)
Definition get_monthly_stats (month user_id : string) (budget_monthly : float)
    (f : file_content) : result MonthlyUsageStats :=
  user_data ← get_user_usage user_id f;
  let monthly_stats := default new_monthly (monthly user_data !! month) in
  let monthly_cost := m_cost monthly_stats in
  let monthly_tokens := m_tokens_total monthly_stats in
  let remaining := max_zero (budget_monthly - monthly_cost)%float in
  percent_used ←
    (if (0 <? budget_monthly)%float
     then q ← float_truediv monthly_cost budget_monthly; mret (q * 100)%float
     else mret 0%float);
  mret {| ms_tokens_total := monthly_tokens;
          ms_cost := monthly_cost;
          ms_budget := budget_monthly;
          ms_remaining := remaining;
          ms_percent_used := percent_used |}.

Definition session_stats_of (b : SessionBucket) : SessionUsageStats :=
  {| ss_tokens_input := s_tokens_input b;
     ss_tokens_output := s_tokens_output b;
     ss_tokens_total := s_tokens_total b;
     ss_cost := s_cost b |}.

Definition zero_session_stats : SessionUsageStats :=
  {| ss_tokens_input := 0; ss_tokens_output := 0; ss_tokens_total := 0;
     ss_cost := 0 |}.

(** The sort key of line 110: [last_updated], else [started_at], else the
    empty string.  ISO strings of naive datetimes compare as the datetimes
    do, and the empty string is below all of them: [None] is the empty
    string. *)
Definition key_gt (a b : option datetime) : bool :=
  match a, b with
  | Some x, Some y => y <? x
  | Some _, None => true
  | None, _ => false
  end.

(** [max(items, key=...)] on a non-empty sequence: the running maximum is
    replaced only by an item whose key compares greater, so the first of
    several maximal items is returned. *)
Fixpoint max_by_stamp (best : string * SessionBucket)
    (rest : list (string * SessionBucket)) : string * SessionBucket :=
  match rest with
  | [] => best
  | x :: rest' =>
      max_by_stamp
        (if key_gt (session_stamp x.2) (session_stamp best.2) then x else best)
        rest'
  end.

(** [get_session_stats].  A dict iterates in insertion order, which the
    finite map does not record: [items] is [sessions.items()] of the loaded
    ledger, as the list the iteration yields. *)
Definition get_session_stats
    (items : gmap string SessionBucket → list (string * SessionBucket))
    (user_id : string) (session_id : option string) (f : file_content)
  : result SessionUsageStats :=
  user_data ← get_user_usage user_id f;
  let sessions := sessions user_data in
  let by_id :=
    match session_id with
    | Some s => if truthy s then sessions !! s else None
    | None => None
    end in
  match by_id with
  | Some session => mret (session_stats_of session)
  | None =>
      match items sessions with
      | first :: rest => mret (session_stats_of (max_by_stamp first rest).2)
      | [] => mret zero_session_stats
      end
  end.

(** An endpoint's answer: the JSON body, or [HTTPException(500)]. *)
Inductive http (A : Type) :=
| Http200 (body : A)
| Http500.
Arguments Http200 {A} body.
Arguments Http500 {A}.

(** Lines 146-168 and their like: every exception becomes HTTP 500. *)
Definition or_500 {A} (r : result A) : http A :=
  match r with
  | Ok a => Http200 a
  | Raise _ => Http500
  end.

(** [get_usage_stats]: the three readers, each loading the store anew, with
    the default monthly budget and no session id. *)
Definition get_usage_stats
    (items : gmap string SessionBucket → list (string * SessionBucket))
    (today_iso month user_email : string) (f : file_content)
  : http UsageStatsResponse :=
  or_500 (
    daily_stats ← get_daily_stats today_iso user_email f;
    monthly_stats ← get_monthly_stats month user_email 3000 f;
    session_stats ← get_session_stats items user_email None f;
    mret {| r_daily := daily_stats; r_monthly := monthly_stats;
            r_session := session_stats;
            r_budget_daily := 100; r_budget_monthly := 3000 |}).







(** ** Vocabulary of the further properties *)

(** The calls of a sequence of operations that complete, with their cost. *)
Definition recorded_ops (ops : list op) : list (call * float) :=
  omap (λ o, match o with
             | Record c =>
                 match call_cost c with
                 | Ok x => Some (c, x)
                 | Raise _ => None
                 end
             | Sweep _ _ _ => None
             end) ops.

(** The call was made by [u] and read the date [d] / the month [m]. *)
Definition on_day (u d : string) (cx : call * float) : Prop :=
  c_user cx.1 = u ∧ today (c_clock cx.1) = d.

Definition in_month (u m : string) (cx : call * float) : Prop :=
  c_user cx.1 = u ∧ current_month (c_clock cx.1) = m.

#[global] Instance on_day_dec (u d : string) (cx : call * float) :
  Decision (on_day u d cx).
Proof. unfold on_day. apply _. Defined.

#[global] Instance in_month_dec (u m : string) (cx : call * float) :
  Decision (in_month u m cx).
Proof. unfold in_month. apply _. Defined.

(** A user's bucket for a date or a month as the readers see it: the
    stored bucket, or zeros. *)
Definition daily_view (u d : string) (f : file_content) : DailyBucket :=
  default new_daily (daily (prior u f) !! d).

Definition monthly_view (u m : string) (f : file_content) : MonthlyBucket :=
  default new_monthly (monthly (prior u f) !! m).

(** The token counts of an operation are not negative. *)
Definition op_nonneg (o : op) : Prop :=
  match o with
  | Record c => 0 ≤ c_input c ∧ 0 ≤ c_output c
  | Sweep _ _ _ => True
  end.

(** What [track_usage] writes for a session: a non-empty id, a consistent
    total, and both timestamps. *)
Definition session_ok (sid : string) (b : SessionBucket) : Prop :=
  sid ≠ ""
  ∧ s_tokens_total b = s_tokens_input b + s_tokens_output b
  ∧ is_Some (started_at b) ∧ is_Some (last_updated b).

Definition ledger_wf (l : UserLedger) : Prop :=
  (length (history l) ≤ 1000)%nat
  ∧ ∀ sid b, sessions l !! sid = Some b → session_ok sid b.

Definition file_wf (f : file_content) : Prop :=
  ∀ u l, load_or_empty f !! u = Some l → ledger_wf l.

(** Only the holder of the lock stands inside the critical section. *)
Definition lock_inv (s : system) : Prop :=
  ∀ i p, pcs s !! i = Some p → holds_lock p = true → lock s = Some i.

(** Two callers that find the file present, interleaved before the lock. *)
Definition fair_schedule : list nat :=
  [0; 1; 0; 1; 0; 0; 0; 0; 1; 1; 1; 1]%nat.

(** ** Text chunking (utils/libretranslate.py)

    A Python [str] is the list of its code points; [len] counts them. *)

Definition len (s : list N) : Z := Z.of_nat (length s).

(** The code points of an ASCII literal. *)
Definition codes (s : string) : list N := N_of_ascii <$> list_ascii_of_string s.

(** The whitespace of [str.split()] and [str.strip()]: the code points
    for which [str.isspace] holds. *)
Definition is_space (c : N) : bool :=
  ((9 <=? c) && (c <=? 13) || (28 <=? c) && (c <=? 32)
   || (c =? 133) || (c =? 160) || (c =? 5760)
   || (8192 <=? c) && (c <=? 8202)
   || (c =? 8232) || (c =? 8233) || (c =? 8239) || (c =? 8287)
   || (c =? 12288))%N.

(** [old] occurs at the head of [s]. *)
Fixpoint starts_with (old s : list N) : bool :=
  match old, s with
  | [], _ => true
  | a :: old', b :: s' => (a =? b)%N && starts_with old' s'
  | _ :: _, [] => false
  end.

(** [s.replace(old, new)] for a non-empty [old]: occurrences are replaced
    from left to right without overlap; [skip] counts the characters of the
    occurrence just replaced that are still to be passed over. *)
Fixpoint replace_from (old new : list N) (skip : nat) (s : list N) : list N :=
  match s with
  | [] => []
  | c :: s' =>
      match skip with
      | S k => replace_from old new k s'
      | O =>
          if starts_with old s
          then new ++ replace_from old new (length old - 1) s'
          else c :: replace_from old new 0 s'
      end
  end.

Definition replace (old new s : list N) : list N := replace_from old new 0 s.

(** [s.split(sep)] for a one-character separator. *)
Fixpoint split_on (sep : N) (s : list N) : list (list N) :=
  match s with
  | [] => [[]]
  | c :: s' =>
      if (c =? sep)%N then [] :: split_on sep s'
      else match split_on sep s' with
           | h :: t => (c :: h) :: t
           | [] => [[c]]
           end
  end.

(** [s.split()]: the maximal runs of non-whitespace characters. *)
Fixpoint words (s : list N) : list (list N) :=
  match s with
  | [] => []
  | c :: s' =>
      if is_space c then words s'
      else match s' with
           | [] => [[c]]
           | c' :: _ =>
               if is_space c' then [c] :: words s'
               else match words s' with
                    | w :: ws => (c :: w) :: ws
                    | [] => [[c]]
                    end
           end
  end.

Fixpoint lstrip (s : list N) : list N :=
  match s with
  | [] => []
  | c :: s' => if is_space c then lstrip s' else s
  end.

(** [s.strip()]. *)
Definition strip (s : list N) : list N :=
  reverse (lstrip (reverse (lstrip s))).

(** Truthiness of a [str]. *)
Definition nonempty (s : list N) : bool :=
  match s with [] => false | _ => true end.

(** Line 299: the text cut after ["! "], ["? "] and [". "] (and at every
    ["|"] of its own). *)
Definition sentences (text : list N) : list (list N) :=
  split_on 124
    (replace (codes ". ") (codes ".|")
       (replace (codes "? ") (codes "?|")
          (replace (codes "! ") (codes "!|") text))).

(** Lines 311-317: one turn of the loop over the words of a long sentence. *)
Definition add_word (max_length : Z) (st : list (list N) * list N)
    (word : list N) : list (list N) * list N :=
  let '(chunks, temp_chunk) := st in
  if len temp_chunk + len word + 1 <=? max_length
  then (chunks, temp_chunk ++ (word ++ codes " "))
  else ((if nonempty temp_chunk then chunks ++ [strip temp_chunk] else chunks),
        word ++ codes " ").

(** Lines 301-320: one turn of the loop over the sentences. *)
Definition add_sentence (max_length : Z) (st : list (list N) * list N)
    (sentence : list N) : list (list N) * list N :=
  let '(chunks, current_chunk) := st in
  if len current_chunk + len sentence <=? max_length
  then (chunks, current_chunk ++ sentence)
  else
    let chunks := if nonempty current_chunk
                  then chunks ++ [current_chunk] else chunks in
    if max_length <? len sentence
    then foldl (add_word max_length) (chunks, []) (words sentence)
    else (chunks, sentence).

(** [_split_text_into_chunks]. *)
Definition _split_text_into_chunks (text : list N) (max_length : Z)
  : list (list N) :=
  if len text <=? max_length then [text]
  else
    let '(chunks, current_chunk) :=
      foldl (add_sentence max_length) ([], []) (sentences text) in
    if nonempty current_chunk then chunks ++ [current_chunk] else chunks.

(** * Properties *)

(** ** Pricing *)

Lemma int_truediv_small (a : Z) :
  Z.abs a < 2 ^ 53 →
  int_truediv a 1000000 = Ok (float_of_small a / 1000000)%float.
Proof.
  intros Ha. unfold int_truediv.
  replace (1000000 =? 0) with false by reflexivity.
  apply Z.ltb_lt in Ha. rewrite Ha.
  replace (Z.abs 1000000 <? 2 ^ 53) with true by reflexivity.
  reflexivity.
Qed.

Lemma cost_at_small (p_in p_out : float) (i o : Z) :
  Z.abs i < 2 ^ 53 → Z.abs o < 2 ^ 53 →
  cost_at p_in p_out i o
  = Ok (float_of_small i / 1000000 * p_in
        + float_of_small o / 1000000 * p_out)%float.
Proof.
  intros Hi Ho. unfold cost_at.
  rewrite (int_truediv_small i Hi), (int_truediv_small o Ho). reflexivity.
Qed.

(** The loop returns at the first entry whose pattern occurs. *)
Lemma calculate_cost_loop_first (table before after : list (string * pricing))
    (pat : string) (pr : pricing) (base : string) (i o : Z) :
  table = before ++ (pat, pr) :: after →
  contains pat base = true →
  Forall (λ e, contains e.1 base ≠ true) before →
  calculate_cost_loop table base i o = cost_at (input pr) (output pr) i o.
Proof.
  intros -> Hpat Hbefore.
  induction Hbefore as [|[k q] before Hk _ IH]; simpl.
  - by rewrite Hpat.
  - simpl in Hk. destruct (contains k base); [congruence | exact IH].
Qed.

Lemma calculate_cost_loop_none (table : list (string * pricing))
    (base : string) (i o : Z) :
  Forall (λ e, contains e.1 base ≠ true) table →
  calculate_cost_loop table base i o = cost_at 3 15 i o.
Proof.
  induction 1 as [|[k q] table Hk _ IH]; simpl; [done |].
  simpl in Hk. destruct (contains k base); [congruence | exact IH].
Qed.

(** Costs are computable for every token count a double holds exactly. *)
Lemma calculate_cost_small (mdl : string) (i o : Z) :
  Z.abs i < 2 ^ 53 → Z.abs o < 2 ^ 53 →
  ∃ x, calculate_cost mdl i o = Ok x.
Proof.
  intros Hi Ho. unfold calculate_cost.
  generalize (lower mdl) as base. intros base.
  induction MODEL_PRICING as [|[k q] table IH]; simpl.
  - rewrite cost_at_small by done. eauto.
  - destruct (contains k base); [| exact IH].
    rewrite cost_at_small by done. eauto.
Qed.

(** C4.  Pattern priority, default and formula of [calculate_cost]: for a
    model identifier matched by a declared pattern (case-insensitive
    substring), the price is the one computed from the first declared
    pattern that matches, whatever later patterns match as well; when no
    pattern matches the price is computed from 3 (input) and 15 (output)
    dollars per million; and the cost is
    [(input_tokens / 1_000_000) * input_price
     + (output_tokens / 1_000_000) * output_price]. *)
Theorem calculate_cost_priority (mdl : string) (i o : Z) :
  (∀ before pat pr after,
     MODEL_PRICING = before ++ (pat, pr) :: after →
     matches pat mdl →
     Forall (λ e, ¬ matches e.1 mdl) before →
     calculate_cost mdl i o = cost_at (input pr) (output pr) i o)
  ∧ (Forall (λ e, ¬ matches e.1 mdl) MODEL_PRICING →
     calculate_cost mdl i o = cost_at 3 15 i o)
  ∧ (∀ p_in p_out,
     Z.abs i < 2 ^ 53 → Z.abs o < 2 ^ 53 →
     cost_at p_in p_out i o
     = Ok (float_of_small i / 1000000 * p_in
           + float_of_small o / 1000000 * p_out)%float).
Proof.
  split; [| split].
  - intros before pat pr after Htable Hpat Hbefore.
    by eapply calculate_cost_loop_first.
  - apply calculate_cost_loop_none.
  - intros. by apply cost_at_small.
Qed.

(** "gpt-4-turbo" contains both "gpt-4" and "gpt-4-turbo"; "gpt-4" is
    declared first, so a million tokens each way cost 30 + 60. *)
Lemma calculate_cost_priority_witness :
  matches "gpt-4" "GPT-4-Turbo" ∧ matches "gpt-4-turbo" "GPT-4-Turbo"
  ∧ calculate_cost "GPT-4-Turbo" 1000000 1000000 = Ok 90%float
  ∧ calculate_cost "llama-3" 1000000 1000000 = Ok 18%float
  ∧ cost_at 30 60 1000000 1000000
    = Ok (float_of_small 1000000 / 1000000 * 30
          + float_of_small 1000000 / 1000000 * 60)%float.
Proof.
  split; [reflexivity | split; [reflexivity | split; [| split]]].
  - destruct (calculate_cost_priority "GPT-4-Turbo" 1000000 1000000)
      as (Hfirst & _ & _).
    rewrite (Hfirst (take 3 MODEL_PRICING) "gpt-4"
                    {| input := 30; output := 60 |} (drop 4 MODEL_PRICING)).
    + reflexivity.
    + reflexivity.
    + reflexivity.
    + repeat constructor; vm_compute; congruence.
  - destruct (calculate_cost_priority "llama-3" 1000000 1000000)
      as (_ & Hnone & _).
    rewrite Hnone.
    + reflexivity.
    + repeat constructor; vm_compute; congruence.
  - destruct (calculate_cost_priority "gpt-4" 1000000 1000000)
      as (_ & _ & Hformula).
    apply Hformula; reflexivity.
Defined.

(** ** One record operation *)

Lemma load_create (f : file_content) :
  load_or_empty (create_if_missing f) = load_or_empty f.
Proof. by destruct f. Qed.

Lemma load_Json (data : UsageStore) : load_or_empty (Json data) = data.
Proof. reflexivity. Qed.

Lemma track_call_ok (f : file_content) (c : call) (x : float) :
  call_cost c = Ok x →
  track_call f c
  = Json (<[c_user c := apply_recorded (prior (c_user c) f) (c, x)]>
            (load_or_empty f)).
Proof.
  unfold track_call, track_usage, call_cost. intros ->.
  by rewrite load_create.
Qed.

Lemma track_call_raise (f : file_content) (c : call) (e : exn) :
  call_cost c = Raise e → track_call f c = f.
Proof. unfold track_call, track_usage, call_cost. by intros ->. Qed.

Lemma ledger_of_track_call (f : file_content) (c : call) (x : float) :
  call_cost c = Ok x →
  ledger_of (c_user c) (track_call f c)
  = Some (apply_recorded (prior (c_user c) f) (c, x)).
Proof.
  intros Hx. rewrite (track_call_ok _ _ _ Hx). simpl.
  by rewrite lookup_insert_eq.
Qed.

Lemma ledger_of_track_call_ne (f : file_content) (c : call) (x : float)
    (u : string) :
  call_cost c = Ok x → u ≠ c_user c →
  ledger_of u (track_call f c) = load_or_empty f !! u.
Proof.
  intros Hx Hu. rewrite (track_call_ok _ _ _ Hx). simpl.
  by rewrite lookup_insert_ne.
Qed.

(** ** Daily invariant *)

Lemma bump_daily_consistent (b : DailyBucket) (i o : Z) (x : float) :
  daily_consistent b → daily_consistent (bump_daily b i o x).
Proof. unfold daily_consistent. simpl. lia. Qed.

Lemma new_daily_consistent : daily_consistent new_daily.
Proof. reflexivity. Qed.

Lemma empty_ledger_consistent : ledger_consistent EMPTY_LEDGER.
Proof. intros d b. simpl. by rewrite lookup_empty. Qed.

Lemma update_ledger_consistent (clk : clock) (mdl : string) (i o : Z)
    (sid : option string) (x : float) (l : UserLedger) :
  ledger_consistent l → ledger_consistent (update_ledger clk mdl i o sid x l).
Proof.
  intros Hl d b. unfold update_ledger. simpl.
  destruct (decide (today clk = d)) as [<- | Hne].
  - rewrite lookup_insert_eq. intros [= <-].
    apply bump_daily_consistent.
    destruct (daily l !! today clk) as [b0|] eqn:Hb0; simpl.
    + by eapply Hl.
    + apply new_daily_consistent.
  - rewrite lookup_insert_ne by done. apply Hl.
Qed.

Lemma prior_consistent (u : string) (f : file_content) :
  file_consistent f → ledger_consistent (prior u f).
Proof.
  intros Hf. unfold prior.
  destruct (load_or_empty f !! u) as [l|] eqn:Hl; simpl.
  - by eapply Hf.
  - apply empty_ledger_consistent.
Qed.

Lemma track_call_consistent (f : file_content) (c : call) :
  file_consistent f → file_consistent (track_call f c).
Proof.
  intros Hf. destruct (call_cost c) as [x | e] eqn:Hx.
  - rewrite (track_call_ok _ _ _ Hx). intros u l. rewrite load_Json.
    destruct (decide (c_user c = u)) as [<- | Hne].
    + rewrite lookup_insert_eq. intros [= <-].
      apply update_ledger_consistent, prior_consistent, Hf.
    + rewrite lookup_insert_ne by done. apply Hf.
  - by rewrite (track_call_raise _ _ _ Hx).
Qed.

Lemma cleanup_consistent (now : datetime) (u : string) (k : Z)
    (f : file_content) :
  file_consistent f → file_consistent (cleanup_old_sessions now u k f).
Proof.
  intros Hf. unfold cleanup_old_sessions.
  destruct f as [| | | data]; simpl; try done.
  destruct (data !! u) as [l|] eqn:Hl; [| done].
  intros u' l'. rewrite load_Json.
  destruct (decide (u = u')) as [<- | Hne].
  - rewrite lookup_insert_eq. intros [= <-] d b. simpl. by apply (Hf u l).
  - rewrite lookup_insert_ne by done. apply Hf.
Qed.

Lemma apply_op_consistent (f : file_content) (o : op) :
  file_consistent f → file_consistent (apply_op f o).
Proof.
  destruct o; simpl; [apply track_call_consistent | apply cleanup_consistent].
Qed.

Lemma fresh_file_consistent : file_consistent NoFile.
Proof.
  intros u l. change (load_or_empty NoFile) with (∅ : UsageStore).
  by rewrite lookup_empty.
Qed.

Lemma ops_consistent (ops : list op) (f : file_content) :
  file_consistent f → file_consistent (foldl apply_op f ops).
Proof.
  revert f. induction ops as [|o ops IH]; intros f Hf; simpl; [done |].
  by apply IH, apply_op_consistent.
Qed.

(** C2.  In every user ledger and for every date of its daily map,
    [tokens_total = tokens_input + tokens_output]; a record operation
    preserves this: if it holds of the store loaded at the start of the
    critical section it holds of the store saved at the end (and of the
    untouched file when the call fails).  Hence it holds of every store
    that record and sweep operations produce from a fresh file. *)
Theorem daily_total_invariant :
  (∀ (f : file_content) (c : call),
     file_consistent f → file_consistent (track_call f c))
  ∧ (∀ (ops : list op) (u d : string) (l : UserLedger) (b : DailyBucket),
     ledger_of u (foldl apply_op NoFile ops) = Some l →
     daily l !! d = Some b →
     d_tokens_total b = d_tokens_input b + d_tokens_output b).
Proof.
  split; [apply track_call_consistent |].
  intros ops u d l b Hl Hb.
  pose proof (ops_consistent ops NoFile fresh_file_consistent) as Hinv.
  destruct (foldl apply_op NoFile ops) as [| | | data]; try done.
  by apply (Hinv u l Hl d b).
Qed.

(** ** Sequences of record operations *)

Lemma recorded_cons_ok (c : call) (cs : list call) (x : float) :
  call_cost c = Ok x → recorded (c :: cs) = (c, x) :: recorded cs.
Proof. unfold recorded. simpl. by intros ->. Qed.

Lemma recorded_cons_raise (c : call) (cs : list call) (e : exn) :
  call_cost c = Raise e → recorded (c :: cs) = recorded cs.
Proof. unfold recorded. simpl. by intros ->. Qed.

Lemma events_priced (cs : list call) :
  Forall (λ e, calculate_cost (model e) (input_tokens e) (output_tokens e)
               = Ok (cost e)) (events cs).
Proof.
  induction cs as [|c cs IH]; [constructor |].
  destruct (call_cost c) as [x | e] eqn:Hx.
  - unfold events. rewrite (recorded_cons_ok _ _ _ Hx). simpl.
    constructor; [exact Hx | exact IH].
  - unfold events. by rewrite (recorded_cons_raise _ _ _ Hx).
Qed.

(** With token counts a double holds exactly, every call records. *)
Lemma events_small (cs : list call) :
  Forall small cs →
  map (λ e, (model e, input_tokens e, output_tokens e, session_id e))
      (events cs)
  = map (λ c, (c_model c, c_input c, c_output c, c_session c)) cs.
Proof.
  induction 1 as [|c cs [Hi Ho] _ IH]; [done |].
  destruct (calculate_cost_small (c_model c) _ _ Hi Ho) as [x Hx].
  unfold events in *. rewrite (recorded_cons_ok _ _ _ Hx). simpl.
  by rewrite IH.
Qed.

Lemma ledger_prior (u : string) (f : file_content) :
  is_Some (ledger_of u f) → ledger_of u f = Some (prior u f).
Proof.
  destruct f as [| | | data]; simpl; try by intros [? [=]].
  intros [l Hl]. unfold prior. rewrite load_Json, Hl. done.
Qed.

Lemma prior_track_call (f : file_content) (c : call) (x : float) :
  call_cost c = Ok x →
  prior (c_user c) (track_call f c)
  = apply_recorded (prior (c_user c) f) (c, x).
Proof.
  intros Hx. unfold prior at 1.
  rewrite (track_call_ok _ _ _ Hx), load_Json. by rewrite lookup_insert_eq.
Qed.

(** The user's ledger after a sequence of that user's calls. *)
Lemma prior_track_calls (u : string) (cs : list call) (f : file_content) :
  Forall (λ c, c_user c = u) cs →
  prior u (track_calls cs f) = foldl apply_recorded (prior u f) (recorded cs).
Proof.
  intros Hcs. revert f.
  induction Hcs as [|c cs <- _ IH]; intros f; [done |].
  change (track_calls (c :: cs) f) with (track_calls cs (track_call f c)).
  destruct (call_cost c) as [x | e] eqn:Hx.
  - rewrite (recorded_cons_ok _ _ _ Hx), IH. simpl.
    by rewrite (prior_track_call _ _ _ Hx).
  - by rewrite (recorded_cons_raise _ _ _ Hx), IH, (track_call_raise _ _ _ Hx).
Qed.

Lemma ledger_kept (u : string) (cs : list call) (f : file_content) :
  Forall (λ c, c_user c = u) cs →
  is_Some (ledger_of u f) ∨ recorded cs ≠ [] →
  is_Some (ledger_of u (track_calls cs f)).
Proof.
  intros Hcs. revert f.
  induction Hcs as [|c cs <- _ IH]; intros f Hor.
  - by destruct Hor.
  - change (track_calls (c :: cs) f) with (track_calls cs (track_call f c)).
    apply IH.
    destruct (call_cost c) as [x | e] eqn:Hx.
    + left. rewrite (ledger_of_track_call _ _ _ Hx). eauto.
    + rewrite (track_call_raise _ _ _ Hx).
      by rewrite (recorded_cons_raise _ _ _ Hx) in Hor.
Qed.

Lemma ledger_of_track_calls (u : string) (cs : list call) (f : file_content) :
  Forall (λ c, c_user c = u) cs →
  recorded cs ≠ [] →
  ledger_of u (track_calls cs f)
  = Some (foldl apply_recorded (prior u f) (recorded cs)).
Proof.
  intros Hcs Hne. rewrite ledger_prior by (apply ledger_kept; auto).
  by rewrite prior_track_calls.
Qed.

(** ** Aggregation over a day *)

Lemma daily_apply_recorded (l : UserLedger) (cx : call * float) (d : string) :
  today (c_clock cx.1) = d →
  daily (apply_recorded l cx) !! d
  = Some (bump_daily_with (default new_daily (daily l !! d)) cx).
Proof. intros <-. unfold apply_recorded, update_ledger. simpl. apply lookup_insert_eq. Qed.

Lemma monthly_apply_recorded (l : UserLedger) (cx : call * float) (m : string) :
  current_month (c_clock cx.1) = m →
  monthly (apply_recorded l cx) !! m
  = Some (bump_monthly_with (default new_monthly (monthly l !! m)) cx).
Proof. intros <-. unfold apply_recorded, update_ledger. simpl. apply lookup_insert_eq. Qed.

Lemma daily_foldl (d : string) (cxs : list (call * float)) (l : UserLedger) :
  Forall (λ cx, today (c_clock cx.1) = d) cxs →
  cxs ≠ [] →
  daily (foldl apply_recorded l cxs) !! d
  = Some (foldl bump_daily_with (default new_daily (daily l !! d)) cxs).
Proof.
  intros Hd. revert l.
  induction Hd as [|cx cxs Hcx _ IH]; intros l Hne; [done |].
  simpl. destruct cxs as [|cx' cxs].
  - simpl. by apply daily_apply_recorded.
  - rewrite IH by done. by rewrite (daily_apply_recorded l cx d Hcx).
Qed.

Lemma monthly_foldl (m : string) (cxs : list (call * float)) (l : UserLedger) :
  Forall (λ cx, current_month (c_clock cx.1) = m) cxs →
  cxs ≠ [] →
  monthly (foldl apply_recorded l cxs) !! m
  = Some (foldl bump_monthly_with (default new_monthly (monthly l !! m)) cxs).
Proof.
  intros Hm. revert l.
  induction Hm as [|cx cxs Hcx _ IH]; intros l Hne; [done |].
  simpl. destruct cxs as [|cx' cxs].
  - simpl. by apply monthly_apply_recorded.
  - rewrite IH by done. by rewrite (monthly_apply_recorded l cx m Hcx).
Qed.

Lemma foldl_bump_daily (cxs : list (call * float)) (b : DailyBucket) :
  let b' := foldl bump_daily_with b cxs in
  d_tokens_total b' = d_tokens_total b + total_tokens (map entry_with cxs)
  ∧ d_cost b' = fsum (d_cost b) (cost <$> map entry_with cxs).
Proof.
  revert b. induction cxs as [|cx cxs IH]; intros b; simpl.
  - split; [lia | done].
  - destruct (IH (bump_daily_with b cx)) as [-> ->]. simpl. split; [lia | done].
Qed.

Lemma foldl_bump_monthly (cxs : list (call * float)) (b : MonthlyBucket) :
  let b' := foldl bump_monthly_with b cxs in
  m_tokens_total b' = m_tokens_total b + total_tokens (map entry_with cxs)
  ∧ m_cost b' = fsum (m_cost b) (cost <$> map entry_with cxs).
Proof.
  revert b. induction cxs as [|cx cxs IH]; intros b; simpl.
  - split; [lia | done].
  - destruct (IH (bump_monthly_with b cx)) as [-> ->]. simpl. split; [lia | done].
Qed.

Lemma recorded_Forall (P : call → Prop) (cs : list call) :
  Forall P cs → Forall (λ cx, P cx.1) (recorded cs).
Proof.
  induction 1 as [|c cs Hc _ IH]; [constructor |].
  destruct (call_cost c) as [x | e] eqn:Hx.
  - rewrite (recorded_cons_ok _ _ _ Hx). by constructor.
  - by rewrite (recorded_cons_raise _ _ _ Hx).
Qed.

(** C1.  Aggregation conservation.  Let one user make a sequence of record
    calls on one day [d] of month [m], starting from a store in which the
    user has no bucket for [d], and let [e1..en] be the events recorded
    (those of the calls whose price is computable: every call whose token
    counts a double holds exactly; a call that fails is logged and skipped).
    After the calls, the user's daily bucket for [d] has
    [tokens_total = Σ (e_k.input_tokens + e_k.output_tokens)] and
    [cost = Σ price(e_k)], the sum being the running binary64 sum from 0 in
    call order, and the bucket of month [m] has grown by the same tokens
    and, addition by addition, by the same costs. *)
Theorem aggregation_conservation (u d m : string) (cs : list call)
    (f : file_content) :
  Forall (λ c, c_user c = u ∧ today (c_clock c) = d
               ∧ current_month (c_clock c) = m) cs →
  daily (prior u f) !! d = None →
  events cs ≠ [] →
  let es := events cs in
  let m0 := default new_monthly (monthly (prior u f) !! m) in
  Forall (λ e, calculate_cost (model e) (input_tokens e) (output_tokens e)
               = Ok (cost e)) es
  ∧ (Forall small cs →
     map (λ e, (model e, input_tokens e, output_tokens e, session_id e)) es
     = map (λ c, (c_model c, c_input c, c_output c, c_session c)) cs)
  ∧ ∃ (l : UserLedger) (b : DailyBucket) (mb : MonthlyBucket),
      ledger_of u (track_calls cs f) = Some l
      ∧ daily l !! d = Some b
      ∧ d_tokens_total b = total_tokens es
      ∧ d_cost b = fsum 0 (cost <$> es)
      ∧ monthly l !! m = Some mb
      ∧ m_tokens_total mb = m_tokens_total m0 + total_tokens es
      ∧ m_cost mb = fsum (m_cost m0) (cost <$> es).
Proof.
  intros Hcs Hnone Hne es m0.
  split; [apply events_priced |]. split; [apply events_small |].
  assert (recorded cs ≠ []) as Hrec.
  { intros Heq. apply Hne. unfold events. by rewrite Heq. }
  assert (Forall (λ c, c_user c = u) cs) as Hu.
  { eapply Forall_impl; [exact Hcs |]. by intros c (? & _). }
  assert (Forall (λ cx, today (c_clock cx.1) = d) (recorded cs)) as Hd.
  { apply (recorded_Forall (λ c, today (c_clock c) = d)).
    eapply Forall_impl; [exact Hcs |]. by intros c (_ & ? & _). }
  assert (Forall (λ cx, current_month (c_clock cx.1) = m) (recorded cs)) as Hm.
  { apply (recorded_Forall (λ c, current_month (c_clock c) = m)).
    eapply Forall_impl; [exact Hcs |]. by intros c (_ & _ & ?). }
  eexists _, _, _.
  split; [by apply ledger_of_track_calls |].
  split; [by apply daily_foldl |].
  rewrite Hnone. simpl.
  destruct (foldl_bump_daily (recorded cs) new_daily) as [Ht Hc].
  split; [rewrite Ht; simpl; reflexivity |].
  split; [rewrite Hc; reflexivity |].
  split; [by apply monthly_foldl |].
  destruct (foldl_bump_monthly (recorded cs) m0) as [Ht' Hc'].
  split; [exact Ht' | exact Hc'].
Qed.

(** ** History bound *)

Lemma trim_history_last_n (h : list UsageEvent) :
  trim_history h = last_n 1000 h.
Proof.
  unfold trim_history, last_n.
  destruct (1000 <? length h)%nat eqn:Hlen; [done |].
  apply Nat.ltb_ge in Hlen.
  by replace (length h - 1000)%nat with 0%nat by lia.
Qed.

Lemma length_last_n {A} (n : nat) (l : list A) :
  length (last_n n l) = (length l `min` n)%nat.
Proof. unfold last_n. rewrite length_drop. lia. Qed.

Lemma last_n_app_last_n {A} (n : nat) (l l' : list A) :
  last_n n (last_n n l ++ l') = last_n n (l ++ l').
Proof.
  unfold last_n at 1 3. rewrite !length_app, length_last_n.
  destruct (decide (length l ≤ n)%nat) as [Hle | Hgt].
  - unfold last_n. replace (length l - n)%nat with 0%nat by lia.
    simpl. by replace (length l `min` n)%nat with (length l) by lia.
  - unfold last_n.
    replace (length l `min` n + length l' - n)%nat with (length l') by lia.
    replace (length l + length l' - n)%nat
      with ((length l - n) + length l')%nat by lia.
    rewrite <- (drop_drop (l ++ l')).
    rewrite (drop_app_le l l' (length l - n)) by lia. done.
Qed.

Lemma history_apply_recorded (l : UserLedger) (cx : call * float) :
  history (apply_recorded l cx) = last_n 1000 (history l ++ [entry_with cx]).
Proof. unfold apply_recorded, update_ledger. simpl. apply trim_history_last_n. Qed.

Lemma history_foldl (cxs : list (call * float)) (l : UserLedger) :
  cxs ≠ [] →
  history (foldl apply_recorded l cxs)
  = last_n 1000 (history l ++ map entry_with cxs).
Proof.
  revert l. induction cxs as [|cx cxs IH]; intros l Hne; [done |].
  simpl. destruct cxs as [|cx' cxs].
  - simpl. apply history_apply_recorded.
  - rewrite IH by done. rewrite history_apply_recorded.
    rewrite last_n_app_last_n. by rewrite <- app_assoc.
Qed.

(** C3.  After a completed record operation the history of the recorded
    user has at most 1000 entries: it is the previous history with the new
    event appended, cut down to its most recent 1000 entries in insertion
    order.  Consequently, when a user whose history is empty records 1500
    events one after the other, the history is exactly the last 1000 of
    them, oldest first. *)
Theorem history_bound :
  (∀ (f : file_content) (c : call) (x : float),
     call_cost c = Ok x →
     ∃ l, ledger_of (c_user c) (track_call f c) = Some l
          ∧ (length (history l) ≤ 1000)%nat
          ∧ let h := history (prior (c_user c) f) ++ [entry_of c x] in
            history l = drop (length h - 1000) h)
  ∧ (∀ (u : string) (cs : list call) (f : file_content),
     Forall (λ c, c_user c = u) cs →
     history (prior u f) = [] →
     length (events cs) = 1500%nat →
     ∃ l, ledger_of u (track_calls cs f) = Some l
          ∧ history l = drop 500 (events cs)
          ∧ length (history l) = 1000%nat).
Proof.
  split.
  - intros f c x Hx. eexists. split; [by apply ledger_of_track_call |].
    rewrite history_apply_recorded. split; [| done].
    rewrite length_last_n. lia.
  - intros u cs f Hu Hempty Hlen.
    assert (recorded cs ≠ []) as Hrec.
    { intros Heq. unfold events in Hlen. by rewrite Heq in Hlen. }
    eexists. split; [by apply ledger_of_track_calls |].
    rewrite history_foldl by done. rewrite Hempty. simpl.
    change (map entry_with (recorded cs)) with (events cs).
    unfold last_n. rewrite Hlen. simpl.
    split; [done |]. rewrite length_drop. lia.
Qed.

(** ** Sessions *)

Lemma sessions_apply_recorded (l : UserLedger) (c : call) (x : float)
    (sid : string) :
  c_session c = Some sid → sid ≠ "" →
  sessions (apply_recorded l (c, x))
  = <[sid := bump_session
               (default (new_session (now_iso (c_clock c))) (sessions l !! sid))
               (c_input c) (c_output c) x (now_iso (c_clock c))]> (sessions l).
Proof.
  intros Hsid Hne. unfold apply_recorded, update_ledger. simpl. rewrite Hsid.
  by destruct sid.
Qed.

(** C5, amended.  For every record call that completes and carries a
    non-empty session id, the session bucket of that id is created when the
    user has none (counters and cost start from zero, [started_at] and
    [last_updated] are the call's timestamp) and merged otherwise (counters
    and cost incremented, [started_at] kept as it was, [last_updated] set to
    the call's timestamp).  In particular two calls of one user with
    session id "s1", 500/100 then 200/50 tokens, leave
    [sessions["s1"].tokens_total = 850], [started_at] from the first call
    and [last_updated] from the second. *)
Theorem session_merge :
  (∀ (f : file_content) (c : call) (x : float) (sid : string),
     call_cost c = Ok x → c_session c = Some sid → sid ≠ "" →
     ∃ l, ledger_of (c_user c) (track_call f c) = Some l
          ∧ sessions l !! sid
            = Some match sessions (prior (c_user c) f) !! sid with
                   | None =>
                       {| s_tokens_input := c_input c;
                          s_tokens_output := c_output c;
                          s_tokens_total := c_input c + c_output c;
                          s_cost := (0 + x)%float;
                          started_at := Some (now_iso (c_clock c));
                          last_updated := Some (now_iso (c_clock c)) |}
                   | Some b =>
                       {| s_tokens_input := s_tokens_input b + c_input c;
                          s_tokens_output := s_tokens_output b + c_output c;
                          s_tokens_total :=
                            s_tokens_total b + (c_input c + c_output c);
                          s_cost := (s_cost b + x)%float;
                          started_at := started_at b;
                          last_updated := Some (now_iso (c_clock c)) |}
                   end)
  ∧ (∀ (f : file_content) (c1 c2 : call),
     c_user c2 = c_user c1 →
     c_session c1 = Some "s1" → c_session c2 = Some "s1" →
     c_input c1 = 500 → c_output c1 = 100 →
     c_input c2 = 200 → c_output c2 = 50 →
     sessions (prior (c_user c1) f) !! "s1" = None →
     ∃ l b, ledger_of (c_user c1) (track_calls [c1; c2] f) = Some l
            ∧ sessions l !! "s1" = Some b
            ∧ s_tokens_total b = 850
            ∧ started_at b = Some (now_iso (c_clock c1))
            ∧ last_updated b = Some (now_iso (c_clock c2))).
Proof.
  split.
  - intros f c x sid Hx Hsid Hne. eexists.
    split; [by apply ledger_of_track_call |].
    rewrite (sessions_apply_recorded _ _ _ sid Hsid Hne), lookup_insert_eq.
    by destruct (sessions (prior (c_user c) f) !! sid).
  - intros f c1 c2 Hu Hs1 Hs2 Hi1 Ho1 Hi2 Ho2 Hnone.
    destruct (calculate_cost_small (c_model c1) (c_input c1) (c_output c1))
      as [x1 Hx1]; [rewrite Hi1; reflexivity | rewrite Ho1; reflexivity |].
    destruct (calculate_cost_small (c_model c2) (c_input c2) (c_output c2))
      as [x2 Hx2]; [rewrite Hi2; reflexivity | rewrite Ho2; reflexivity |].
    unfold track_calls. simpl. rewrite <- Hu.
    rewrite (ledger_of_track_call _ _ _ Hx2), Hu.
    rewrite (prior_track_call _ _ _ Hx1).
    eexists _, _. split; [done |].
    rewrite (sessions_apply_recorded _ c2 x2 "s1" Hs2) by done.
    rewrite lookup_insert_eq.
    rewrite (sessions_apply_recorded _ c1 x1 "s1" Hs1) by done.
    rewrite lookup_insert_eq, Hnone. simpl.
    split; [done |]. rewrite Hi1, Ho1, Hi2, Ho2. done.
Qed.

(** C5 as stated fails for the empty session id: the call completes, its
    history entry carries the id, and no session bucket exists. *)
Lemma session_empty_id_skipped :
  let f' := track_call NoFile (call_at 0 "gpt-4" 500 100 (Some "")) in
  ∃ l e, ledger_of "a@x.com" f' = Some l
         ∧ history l = [e] ∧ session_id e = Some ""
         ∧ sessions l !! "" = None.
Proof.
  destruct (calculate_cost_small "gpt-4" 500 100) as [x Hx]; [done | done |].
  intros f'.
  exists (apply_recorded (prior "a@x.com" NoFile)
                         (call_at 0 "gpt-4" 500 100 (Some ""), x)).
  exists (entry_of (call_at 0 "gpt-4" 500 100 (Some "")) x).
  split.
  { exact (ledger_of_track_call NoFile
             (call_at 0 "gpt-4" 500 100 (Some "")) x Hx). }
  split; [reflexivity |]. split; [reflexivity |].
  apply lookup_empty.
Qed.

(** ** Absent, empty and unparsable files *)



(** ** Negative token counts *)





(** ** Daily reset endpoint *)

(** C6, the behaviour of the code.  Whatever the user, the date and the
    stored data, [reset_daily_usage] answers HTTP 500 and writes no file:
    line 334 calls [safe_read_json(DAILY_COST_FILE, {})] and routers/usage.py
    binds neither name, so the call raises [NameError], which the handler of
    lines 359-364 turns into the error answer.  No daily bucket is ever
    deleted and success is never returned. *)
Theorem reset_daily_usage_fails (V : Type) (target_date : option string)
    (user_id today_iso : string) :
  load_global (V := V) usage_router_globals "safe_read_json" = Raise NameError
  ∧ load_global (V := V) usage_router_globals "DAILY_COST_FILE" = Raise NameError
  ∧ reset_daily_usage (V := V) usage_router_globals target_date user_id today_iso
    = (HTTP_500, None).
Proof. split; [reflexivity |]. split; reflexivity. Qed.

(** ** Retention sweep *)

Lemma is_stale_older_than (cutoff : datetime) (b : SessionBucket) :
  is_stale cutoff b = true ↔ older_than cutoff b.
Proof.
  unfold is_stale, older_than, session_stamp.
  destruct (last_updated b) as [t|]; [| destruct (started_at b) as [t|]].
  - rewrite Z.ltb_lt. split; [eauto |].
    intros (t' & [[= <-] | [[=] _]] & Hlt). done.
  - rewrite Z.ltb_lt. split; [eauto |].
    intros (t' & [[=] | [_ [= <-]]] & Hlt). done.
  - split; [done |]. intros (t' & [[=] | [_ [=]]] & _).
Qed.

Lemma lookup_delete_all (keys : list string) (m : gmap string SessionBucket)
    (k : string) :
  delete_all keys m !! k = if decide (k ∈ keys) then None else m !! k.
Proof.
  unfold delete_all. revert m.
  induction keys as [|k' keys IH]; intros m; simpl.
  - destruct (decide (k ∈ [])) as [Hin | _]; [by inv Hin | done].
  - rewrite IH.
    destruct (decide (k ∈ keys)) as [Hin | Hnin].
    + rewrite decide_True; [done | by right].
    + destruct (decide (k = k')) as [-> | Hne].
      * rewrite lookup_delete_eq. rewrite decide_True; [done | by left].
      * rewrite lookup_delete_ne by done.
        rewrite decide_False; [done |]. by intros [? | ?]%elem_of_cons.
Qed.

Lemma elem_of_sessions_to_delete (cutoff : datetime)
    (m : gmap string SessionBucket) (k : string) :
  k ∈ sessions_to_delete cutoff m
  ↔ ∃ b, m !! k = Some b ∧ is_stale cutoff b = true.
Proof.
  unfold sessions_to_delete. rewrite list_elem_of_fmap. split.
  - intros ([k' b] & -> & [Hst Hin%elem_of_map_to_list]%list_elem_of_filter).
    eauto.
  - intros (b & Hk & Hst). exists (k, b). split; [done |].
    apply list_elem_of_filter. split; [done |]. by apply elem_of_map_to_list.
Qed.

(** What the two loops of lines 216-224 leave in [sessions]. *)
Lemma lookup_swept (cutoff : datetime) (m : gmap string SessionBucket)
    (k : string) :
  delete_all (sessions_to_delete cutoff m) m !! k
  = match m !! k with
    | Some b => if is_stale cutoff b then None else Some b
    | None => None
    end.
Proof.
  rewrite lookup_delete_all.
  destruct (decide (k ∈ sessions_to_delete cutoff m)) as [Hin | Hnin].
  - apply elem_of_sessions_to_delete in Hin as (b & -> & ->). done.
  - destruct (m !! k) as [b|] eqn:Hk; [| done].
    destruct (is_stale cutoff b) eqn:Hst; [| done].
    exfalso. apply Hnin, elem_of_sessions_to_delete. eauto.
Qed.




Lemma sweep_ledger_sessions (cutoff : datetime) (l : UserLedger)
    (sid : string) (b : SessionBucket) :
  sessions (sweep_ledger cutoff l) !! sid = Some b
  ↔ sessions l !! sid = Some b ∧ ¬ older_than cutoff b.
Proof.
  unfold sweep_ledger. simpl. rewrite lookup_swept.
  destruct (sessions l !! sid) as [b'|]; [| by split; [| intros [? _]]].
  destruct (is_stale cutoff b') eqn:Hst.
  - split; [done |]. intros [[= ->] Hold]. exfalso.
    by apply Hold, is_stale_older_than.
  - split; [| by intros [? _]]. intros [= <-]. split; [done |].
    intros Hold%is_stale_older_than. congruence.
Qed.


(** ** The statements at concrete inputs *)

(** Two calls of one day: two million and one million tokens of "gpt-4". *)
Lemma aggregation_conservation_witness :
  ∃ l b mb,
    ledger_of "a@x.com"
      (track_calls [call_at 0 "gpt-4" 1000000 1000000 None;
                    call_at 1 "gpt-4" 1000000 0 None] NoFile) = Some l
    ∧ daily l !! "2026-11-04" = Some b
    ∧ d_tokens_total b = 3000000
    ∧ d_cost b = 120%float
    ∧ monthly l !! "2026-11" = Some mb
    ∧ m_tokens_total mb = 3000000
    ∧ m_cost mb = 120%float.
Proof.
  destruct (aggregation_conservation "a@x.com" "2026-11-04" "2026-11"
              [call_at 0 "gpt-4" 1000000 1000000 None;
               call_at 1 "gpt-4" 1000000 0 None] NoFile)
    as (_ & _ & l & b & mb & Hl & Hb & Ht & Hc & Hmb & Hmt & Hmc).
  - repeat constructor.
  - reflexivity.
  - vm_compute. discriminate.
  - exists l, b, mb. repeat split; assumption.
Defined.

Lemma daily_total_invariant_witness :
  file_consistent NoFile
  ∧ file_consistent
      (track_call NoFile (call_at 0 "gpt-4" 1000000 1000000 None))
  ∧ ∃ l b,
      ledger_of "a@x.com"
        (foldl apply_op NoFile
               [Record (call_at 0 "gpt-4" 1000000 1000000 None)]) = Some l
      ∧ daily l !! "2026-11-04" = Some b
      ∧ d_tokens_total b = d_tokens_input b + d_tokens_output b.
Proof.
  split; [apply fresh_file_consistent |]. split.
  - apply (proj1 daily_total_invariant), fresh_file_consistent.
  - assert (call_cost (call_at 0 "gpt-4" 1000000 1000000 None) = Ok 90%float)
      as Hx by reflexivity.
    pose proof (ledger_of_track_call NoFile _ _ Hx) as Hl.
    pose proof (daily_apply_recorded (prior "a@x.com" NoFile)
                  (call_at 0 "gpt-4" 1000000 1000000 None, 90%float)
                  "2026-11-04" eq_refl) as Hb.
    eexists _, _. split; [exact Hl |]. split; [exact Hb |].
    exact (proj2 daily_total_invariant
             [Record (call_at 0 "gpt-4" 1000000 1000000 None)]
             "a@x.com" "2026-11-04" _ _ Hl Hb).
Defined.

Lemma history_bound_witness :
  (∃ l, ledger_of "a@x.com"
          (track_call NoFile (call_at 0 "gpt-4" 1000000 1000000 None)) = Some l
        ∧ (length (history l) ≤ 1000)%nat)
  ∧ (∃ l, ledger_of "a@x.com"
            (track_calls (replicate 1500 (call_at 0 "gpt-4" 1 1 None)) NoFile)
          = Some l
          ∧ length (history l) = 1000%nat).
Proof.
  destruct history_bound as [Hone Hmany]. split.
  - destruct (Hone NoFile (call_at 0 "gpt-4" 1000000 1000000 None) 90%float)
      as (l & Hl & Hlen & _); [reflexivity |].
    exists l. split; assumption.
  - destruct (Hmany "a@x.com" (replicate 1500 (call_at 0 "gpt-4" 1 1 None))
                    NoFile) as (l & Hl & _ & Hlen).
    + apply Forall_replicate. reflexivity.
    + reflexivity.
    + vm_compute. reflexivity.
    + exists l. split; assumption.
Defined.

Lemma session_merge_witness :
  (∃ l b, ledger_of "a@x.com"
            (track_call NoFile (call_at 7 "gpt-4" 500 100 (Some "s1"))) = Some l
          ∧ sessions l !! "s1" = Some b)
  ∧ (∃ l b, ledger_of "a@x.com"
              (track_calls [call_at 7 "gpt-4" 500 100 (Some "s1");
                            call_at 9 "gpt-4" 200 50 (Some "s1")] NoFile)
            = Some l
            ∧ sessions l !! "s1" = Some b
            ∧ s_tokens_total b = 850
            ∧ started_at b = Some 7
            ∧ last_updated b = Some 9).
Proof.
  destruct session_merge as [Hone Htwo]. split.
  - destruct (calculate_cost_small "gpt-4" 500 100) as [x Hx];
      [simpl; lia | simpl; lia |].
    destruct (Hone NoFile (call_at 7 "gpt-4" 500 100 (Some "s1")) x "s1")
      as (l & Hl & Hb); [exact Hx | reflexivity | discriminate |].
    exists l. eexists. split; [exact Hl | exact Hb].
  - destruct (Htwo NoFile (call_at 7 "gpt-4" 500 100 (Some "s1"))
                   (call_at 9 "gpt-4" 200 50 (Some "s1")))
      as (l & b & H); try reflexivity.
    exists l, b. exact H.
Defined.


(** ** Concurrent callers *)

(** A caller that runs alone goes through [track_usage]. *)
Lemma run_alone (c : call) (f : file_content) :
  ∃ sched s, run [c] sched (initial [c] f) = Some s
             ∧ all_finished s ∧ lock s = None
             ∧ file s = track_call f c.
Proof.
  destruct (call_cost c) as [x | e] eqn:Hx.
  - destruct f as [| | | data].
    + exists [0; 0; 0; 0; 0; 0; 0]%nat. eexists.
      unfold run, step, initial, step_caller. simpl. rewrite Hx. simpl.
      split; [reflexivity |]. split; [by repeat constructor |].
      split; [reflexivity |]. simpl. by rewrite (track_call_ok _ _ _ Hx).
    + exists [0; 0; 0; 0; 0; 0]%nat. eexists.
      unfold run, step, initial, step_caller. simpl. rewrite Hx. simpl.
      split; [reflexivity |]. split; [by repeat constructor |].
      split; [reflexivity |]. simpl. by rewrite (track_call_ok _ _ _ Hx).
    + exists [0; 0; 0; 0; 0; 0]%nat. eexists.
      unfold run, step, initial, step_caller. simpl. rewrite Hx. simpl.
      split; [reflexivity |]. split; [by repeat constructor |].
      split; [reflexivity |]. simpl. by rewrite (track_call_ok _ _ _ Hx).
    + exists [0; 0; 0; 0; 0; 0]%nat. eexists.
      unfold run, step, initial, step_caller. simpl. rewrite Hx. simpl.
      split; [reflexivity |]. split; [by repeat constructor |].
      split; [reflexivity |]. simpl. by rewrite (track_call_ok _ _ _ Hx).
  - exists [0%nat]. eexists.
    unfold run, step, initial, step_caller. simpl. rewrite Hx. simpl.
    split; [reflexivity |]. split; [by repeat constructor |].
    split; [reflexivity |]. simpl. by rewrite (track_call_raise _ _ _ Hx).
Qed.

(** C10, the behaviour of the code.  Two concurrent callers record one
    event each for the same user, the store file being absent at first.
    Under [lost_update_schedule] both callers run to completion, yet the
    final store holds the contribution of caller 0 only (2000000 tokens, one
    history entry), whereas each of the two serial executions yields
    3000000 tokens and two history entries: an update is lost. *)
Theorem concurrent_lost_update :
  let cs := [caller_a; caller_b] in
  (∃ s l b,
     run cs lost_update_schedule (initial cs NoFile) = Some s
     ∧ all_finished s ∧ lock s = None
     ∧ ledger_of "a@x.com" (file s) = Some l
     ∧ daily l !! "2026-11-04" = Some b
     ∧ d_tokens_total b = 2000000
     ∧ length (history l) = 1%nat)
  ∧ (∃ l b,
       ledger_of "a@x.com" (track_calls [caller_a; caller_b] NoFile) = Some l
       ∧ daily l !! "2026-11-04" = Some b
       ∧ d_tokens_total b = 3000000
       ∧ length (history l) = 2%nat)
  ∧ (∃ l b,
       ledger_of "a@x.com" (track_calls [caller_b; caller_a] NoFile) = Some l
       ∧ daily l !! "2026-11-04" = Some b
       ∧ d_tokens_total b = 3000000
       ∧ length (history l) = 2%nat).
Proof.
  intros cs. split; [| split].
  - exists {| file := Json (apply_usage (clock_at 0) "a@x.com" "gpt-4"
                               1000000 1000000 None 90%float ∅);
              lock := None; pcs := [Finished; Finished] |}.
    eexists _, _. split; [reflexivity |].
    split; [by repeat constructor |]. split; [reflexivity |].
    split; [apply lookup_insert_eq |].
    split; [apply lookup_insert_eq |]. split; reflexivity.
  - eexists _, _. split; [by apply ledger_of_track_calls; repeat constructor |].
    split; [by apply daily_foldl; repeat constructor |].
    split; reflexivity.
  - eexists _, _. split; [by apply ledger_of_track_calls; repeat constructor |].
    split; [by apply daily_foldl; repeat constructor |].
    split; reflexivity.
Qed.

(** ** Callers that find the file present are serialised by the lock *)

Lemma calls_of_snoc (cs : list call) (order : list nat) (i : nat) (c : call) :
  cs !! i = Some c → calls_of cs (order ++ [i]) = calls_of cs order ++ [c].
Proof. intros Hc. unfold calls_of. rewrite omap_app. simpl. by rewrite Hc. Qed.

Lemma track_calls_snoc (cs : list call) (c : call) (f : file_content) :
  track_calls (cs ++ [c]) f = track_call (track_calls cs f) c.
Proof. unfold track_calls. by rewrite foldl_app. Qed.

Lemma calls_of_seq (pre cs : list call) :
  calls_of (pre ++ cs) (seq (length pre) (length cs)) = cs.
Proof.
  revert pre. induction cs as [|c cs IH]; intros pre; [done |].
  unfold calls_of in *. simpl. rewrite list_lookup_middle by done. f_equal.
  specialize (IH (pre ++ [c])). rewrite <- app_assoc, length_app in IH.
  simpl in IH. by replace (length pre + 1)%nat with (S (length pre)) in IH by lia.
Qed.

Lemma initial_inv (cs : list call) (f0 : file_content) :
  f0 ≠ NoFile → serial_inv cs f0 (initial cs f0) [].
Proof.
  intros Hf. split; simpl.
  - apply length_replicate.
  - done.
  - done.
  - constructor.
  - intros i. split; [by intros ?%elem_of_nil |].
    intros (p & [-> _]%lookup_replicate & Hp). done.
  - intros i p [-> _]%lookup_replicate. done.
  - intros i p c [-> _]%lookup_replicate _. done.
Qed.

(** A step that does not commit and leaves the file as it is. *)
Lemma inv_move (cs : list call) (f0 : file_content) (s : system)
    (order : list nat) (i : nat) (c : call) (p p' : pc) (lk' : option nat) :
  serial_inv cs f0 s order →
  cs !! i = Some c → pcs s !! i = Some p →
  committed p' = committed p →
  (holds_lock p' = true → lk' = Some i) →
  (∀ j q, j ≠ i → pcs s !! j = Some q → holds_lock q = true → lk' = Some j) →
  pc_ok c (file s) p' →
  serial_inv cs f0 {| file := file s; lock := lk'; pcs := <[i := p']> (pcs s) |}
             order.
Proof.
  intros [Hlen Hex Hfile Hnd Hord Hlock Hpc] Hc Hp Hcp Hl' Hothers Hok.
  pose proof (lookup_lt_Some _ _ _ Hp) as Hi.
  split; simpl; try done.
  - by rewrite length_insert.
  - intros j. rewrite Hord. split.
    + intros (q & Hq & Hcq). destruct (decide (i = j)) as [<- | Hne].
      * exists p'. rewrite list_lookup_insert_eq by done. split; congruence.
      * exists q. by rewrite list_lookup_insert_ne.
    + intros (q & Hq & Hcq). destruct (decide (i = j)) as [<- | Hne].
      * rewrite list_lookup_insert_eq in Hq by done. exists p.
        split; congruence.
      * exists q. by rewrite list_lookup_insert_ne in Hq.
  - intros j q Hq Hh. destruct (decide (i = j)) as [<- | Hne].
    + rewrite list_lookup_insert_eq in Hq by done. injection Hq as <-. auto.
    + rewrite list_lookup_insert_ne in Hq by done. eauto.
  - intros j q c' Hq Hc'. destruct (decide (i = j)) as [<- | Hne].
    + rewrite list_lookup_insert_eq in Hq by done. injection Hq as <-.
      congruence.
    + rewrite list_lookup_insert_ne in Hq by done. eauto.
Qed.

(** A step by which caller [i] commits: the file becomes what its call
    makes of it, and [i] is appended to the commit order. *)
Lemma inv_commit (cs : list call) (f0 : file_content) (s : system)
    (order : list nat) (i : nat) (c : call) (p p' : pc) :
  serial_inv cs f0 s order →
  cs !! i = Some c → pcs s !! i = Some p →
  committed p = false → committed p' = true →
  (holds_lock p' = true → lock s = Some i) →
  (∀ j q c', j ≠ i → pcs s !! j = Some q → cs !! j = Some c' →
             pc_ok c' (file s) q → pc_ok c' (track_call (file s) c) q) →
  track_call (file s) c ≠ NoFile →
  serial_inv cs f0
    {| file := track_call (file s) c; lock := lock s;
       pcs := <[i := p']> (pcs s) |}
    (order ++ [i]).
Proof.
  intros [Hlen Hex Hfile Hnd Hord Hlock Hpc] Hc Hp Hcp Hcp' Hl' Hframe Hne0.
  pose proof (lookup_lt_Some _ _ _ Hp) as Hi.
  assert (i ∉ order) as Hnin.
  { rewrite Hord. intros (q & Hq & Hcq). congruence. }
  split; simpl.
  - by rewrite length_insert.
  - done.
  - by rewrite (calls_of_snoc _ _ _ _ Hc), track_calls_snoc, <- Hfile.
  - apply NoDup_app. split; [done |]. split; [| apply NoDup_singleton].
    intros j Hj ->%list_elem_of_singleton. done.
  - intros j. rewrite elem_of_app, list_elem_of_singleton, Hord. split.
    + intros [(q & Hq & Hcq) | ->].
      * destruct (decide (i = j)) as [<- | Hne]; [congruence |].
        exists q. by rewrite list_lookup_insert_ne.
      * exists p'. by rewrite list_lookup_insert_eq.
    + intros (q & Hq & Hcq). destruct (decide (i = j)) as [<- | Hne].
      * by right.
      * left. exists q. by rewrite list_lookup_insert_ne in Hq.
  - intros j q Hq Hh. destruct (decide (i = j)) as [<- | Hne].
    + rewrite list_lookup_insert_eq in Hq by done. injection Hq as <-. auto.
    + rewrite list_lookup_insert_ne in Hq by done. eauto.
  - intros j q c' Hq Hc'. destruct (decide (i = j)) as [<- | Hne].
    + rewrite list_lookup_insert_eq in Hq by done. injection Hq as <-.
      by destruct p'.
    + rewrite list_lookup_insert_ne in Hq by done. eauto.
Qed.

Lemma step_inv (cs : list call) (f0 : file_content) (s s' : system)
    (order : list nat) (i : nat) :
  serial_inv cs f0 s order →
  step cs i s = Some s' →
  ∃ order', serial_inv cs f0 s' order'.
Proof.
  intros Hinv Hstep. unfold step in Hstep.
  destruct (cs !! i) as [c|] eqn:Hc; [| done]. simpl in Hstep.
  destruct (pcs s !! i) as [p|] eqn:Hp; [| done]. simpl in Hstep.
  pose proof (inv_pc _ _ _ _ Hinv i p c Hp Hc) as Hok.
  pose proof (inv_lock _ _ _ _ Hinv) as Hlock.
  pose proof (inv_exists _ _ _ _ Hinv) as Hex.
  destruct p as [| x | x | x | x | x data | |]; simpl in Hstep, Hok.
  - (* AtCost *)
    destruct (call_cost c) as [x | e] eqn:Hx; injection Hstep as <-.
    + exists order. by apply (inv_move cs f0 s order i c AtCost); eauto.
    + exists (order ++ [i]).
      rewrite <- (track_call_raise (file s) c e Hx) at 1.
      apply (inv_commit cs f0 s order i c AtCost); try done.
      * intros j q c' _ _ _. by rewrite (track_call_raise _ _ _ Hx).
      * by rewrite (track_call_raise _ _ _ Hx).
  - (* AtExists *)
    exists order. destruct (file s) eqn:Hf; [done | | |];
      injection Hstep as <-; rewrite <- Hf;
      apply (inv_move cs f0 s order i c (AtExists x)); eauto; done.
  - (* AtCreate *) done.
  - (* AtLock *)
    destruct (lock s) as [holder|] eqn:Hlk; [done |]. injection Hstep as <-.
    exists order. apply (inv_move cs f0 s order i c (AtLock x)); eauto.
    intros j q _ Hq Hh. by pose proof (Hlock j q Hq Hh).
  - (* AtLoad *)
    injection Hstep as <-. exists order.
    by apply (inv_move cs f0 s order i c (AtLoad x)); eauto.
  - (* AtSave *)
    destruct Hok as [Hx ->]. injection Hstep as <-. exists (order ++ [i]).
    assert (Json (apply_usage (c_clock c) (c_user c) (c_model c) (c_input c)
                              (c_output c) (c_session c) x
                              (load_or_empty (file s)))
            = track_call (file s) c) as ->.
    { by rewrite (track_call_ok _ _ _ Hx). }
    pose proof (Hlock i _ Hp eq_refl) as Hmine.
    apply (inv_commit cs f0 s order i c (AtSave x (load_or_empty (file s))));
      try done.
    + intros j q c' Hne Hq _ Hokq. destruct q; try done.
      exfalso. apply Hne. pose proof (Hlock j _ Hq eq_refl). congruence.
    + by rewrite (track_call_ok _ _ _ Hx).
  - (* AtUnlock *)
    injection Hstep as <-. exists order.
    pose proof (Hlock i _ Hp eq_refl) as Hmine.
    apply (inv_move cs f0 s order i c AtUnlock); eauto; [done |].
    intros j q Hne Hq Hh. exfalso. apply Hne.
    pose proof (Hlock j q Hq Hh). congruence.
  - (* Finished *) done.
Qed.

Lemma run_inv (cs : list call) (f0 : file_content) (sched : list nat)
    (s s' : system) (order : list nat) :
  serial_inv cs f0 s order →
  run cs sched s = Some s' →
  ∃ order', serial_inv cs f0 s' order'.
Proof.
  revert s order. induction sched as [|i sched IH]; intros s order Hinv Hrun.
  - injection Hrun as <-. eauto.
  - simpl in Hrun. destruct (step cs i s) as [s1|] eqn:Hstep; [| done].
    simpl in Hrun. destruct (step_inv _ _ _ _ _ _ Hinv Hstep) as [order1 Hinv1].
    eauto.
Qed.

(** When the store file exists before the callers start, every execution
    in which all callers finish leaves the file that some serial execution
    of the same calls leaves: no update is lost and none is applied twice. *)
Lemma serial_when_file_exists (cs : list call) (f0 : file_content)
    (sched : list nat) (s : system) :
  f0 ≠ NoFile →
  run cs sched (initial cs f0) = Some s →
  all_finished s →
  ∃ order, order ≡ₚ cs ∧ file s = track_calls order f0.
Proof.
  intros Hf Hrun Hfin.
  destruct (run_inv _ _ _ _ _ _ (initial_inv cs f0 Hf) Hrun) as [order Hinv].
  exists (calls_of cs order). split; [| apply (inv_file _ _ _ _ Hinv)].
  rewrite <- (calls_of_seq [] cs) at 2. simpl.
  unfold calls_of. apply omap_Permutation.
  apply NoDup_Permutation; [apply (inv_nodup _ _ _ _ Hinv) | apply NoDup_seq |].
  intros i. rewrite (inv_order _ _ _ _ Hinv), elem_of_seq.
  rewrite <- (inv_length _ _ _ _ Hinv). split.
  - intros (p & Hp%lookup_lt_Some & _). lia.
  - intros [_ Hi]. destruct (lookup_lt_is_Some_2 (pcs s) i) as [p Hp]; [lia |].
    exists p. split; [done |].
    by rewrite (Forall_lookup_1 _ _ _ _ Hfin Hp).
Qed.

(** * Further properties of the code *)

(** ** Pricing *)

Lemma lower_ascii_idem (c : ascii) : lower_ascii (lower_ascii c) = lower_ascii c.
Proof. by destruct c as [[] [] [] [] [] [] [] []]. Qed.

Lemma lower_idem (s : string) : lower (lower s) = lower s.
Proof.
  induction s as [|c s IH]; [done |].
  simpl. by rewrite lower_ascii_idem, IH.
Qed.

(** Zero tokens cost zero whatever the model, known or not. *)
Theorem calculate_cost_zero (mdl : string) :
  calculate_cost mdl 0 0 = Ok 0%float.
Proof.
  unfold calculate_cost. generalize (lower mdl) as base. intros base.
  unfold MODEL_PRICING.
  repeat (simpl; destruct (contains _ base); [reflexivity |]).
  reflexivity.
Qed.

(** The price depends on the model identifier only through its lower-case
    form: two identifiers that differ in the case of ASCII letters cost the
    same, and lower-casing an identifier beforehand changes nothing. *)
Theorem calculate_cost_case_insensitive (m1 m2 : string) (i o : Z) :
  lower m1 = lower m2 →
  calculate_cost m1 i o = calculate_cost m2 i o
  ∧ calculate_cost (lower m1) i o = calculate_cost m1 i o.
Proof.
  intros Heq. unfold calculate_cost. by rewrite lower_idem, Heq.
Qed.

Lemma calculate_cost_case_insensitive_witness :
  calculate_cost "GPT-4-Turbo" 7 9 = calculate_cost "gpt-4-TURBO" 7 9.
Proof.
  apply (calculate_cost_case_insensitive "GPT-4-Turbo" "gpt-4-TURBO" 7 9).
  reflexivity.
Defined.

(** For token counts that a double holds exactly the price is always
    computed, from the prices of one table entry or from the default
    3 and 15; beyond the range of a double the computation raises
    [OverflowError]. *)
Theorem calculate_cost_total_on_small (mdl : string) (i o : Z) :
  Z.abs i < 2 ^ 53 → Z.abs o < 2 ^ 53 →
  ∃ p_in p_out,
    ((∃ pat, (pat, {| input := p_in; output := p_out |}) ∈ MODEL_PRICING
             ∧ matches pat mdl)
     ∨ (p_in = 3%float ∧ p_out = 15%float
        ∧ Forall (λ e, ¬ matches e.1 mdl) MODEL_PRICING))
    ∧ calculate_cost mdl i o
      = Ok (float_of_small i / 1000000 * p_in
            + float_of_small o / 1000000 * p_out)%float.
Proof.
  intros Hi Ho. unfold calculate_cost, matches.
  generalize (lower mdl) as base. intros base.
  induction MODEL_PRICING as [|[k [p q]] table IH]; simpl.
  - exists 3%float, 15%float. split; [right; by repeat split |].
    by apply cost_at_small.
  - destruct (contains k base) eqn:Hk.
    + exists p, q. split; [| by apply cost_at_small].
      left. exists k. split; [by left | done].
    + destruct IH as (p_in & p_out & Hwhere & Hcost).
      exists p_in, p_out. split; [| done].
      destruct Hwhere as [(pat & Hin & Hm) | (-> & -> & Hnone)].
      * left. exists pat. split; [by right | done].
      * right. repeat split. constructor; [simpl; congruence | done].
Qed.

Lemma calculate_cost_total_on_small_witness :
  (∃ x, calculate_cost "gpt-4" (-7) 9007199254740991 = Ok x)
  ∧ calculate_cost "gpt-4" (10 ^ 400) 0 = Raise OverflowError.
Proof.
  split; [| reflexivity].
  destruct (calculate_cost_total_on_small "gpt-4" (-7) 9007199254740991)
    as (p_in & p_out & _ & Hx); [reflexivity | reflexivity |].
  eauto.
Defined.

(** ** Reading after writing *)

(** [get_user_usage] always returns: the user's entry of a parsable
    store, the empty ledger otherwise. *)
Lemma get_user_usage_prior (u : string) (f : file_content) :
  get_user_usage u f = Ok (prior u f).
Proof. by destruct f. Qed.

Lemma prior_track_call_other (f : file_content) (c : call) (u : string) :
  u ≠ c_user c → prior u (track_call f c) = prior u f.
Proof.
  intros Hu. destruct (call_cost c) as [x | e] eqn:Hx.
  - unfold prior. rewrite (track_call_ok _ _ _ Hx), load_Json.
    by rewrite lookup_insert_ne.
  - by rewrite (track_call_raise _ _ _ Hx).
Qed.

Lemma delete_all_empty_sessions (cutoff : datetime) :
  delete_all (sessions_to_delete cutoff ∅) ∅ = ∅.
Proof. apply map_eq. intros k. by rewrite lookup_swept, lookup_empty. Qed.

Lemma prior_cleanup_same (now : datetime) (u : string) (k : Z)
    (f : file_content) :
  prior u (cleanup_old_sessions now u k f)
  = sweep_ledger (now - timedelta_days k) (prior u f).
Proof.
  assert (sweep_ledger (now - timedelta_days k) EMPTY_LEDGER = EMPTY_LEDGER)
    as Hempty.
  { unfold sweep_ledger, EMPTY_LEDGER. simpl.
    by rewrite delete_all_empty_sessions. }
  destruct f as [| | | data].
  - change (prior u (cleanup_old_sessions now u k NoFile)) with EMPTY_LEDGER.
    change (prior u NoFile) with EMPTY_LEDGER. by rewrite Hempty.
  - change (prior u (cleanup_old_sessions now u k EmptyFile)) with EMPTY_LEDGER.
    change (prior u EmptyFile) with EMPTY_LEDGER. by rewrite Hempty.
  - change (prior u (cleanup_old_sessions now u k Unparsable)) with EMPTY_LEDGER.
    change (prior u Unparsable) with EMPTY_LEDGER. by rewrite Hempty.
  - unfold cleanup_old_sessions, prior. simpl.
    destruct (data !! u) as [l|] eqn:Hl.
    + rewrite !load_Json, lookup_insert_eq, Hl. done.
    + rewrite !load_Json, Hl. simpl. by rewrite Hempty.
Qed.

Lemma prior_cleanup_other (now : datetime) (u u' : string) (k : Z)
    (f : file_content) :
  u ≠ u' → prior u (cleanup_old_sessions now u' k f) = prior u f.
Proof.
  intros Hu. destruct f as [| | | data]; try done.
  unfold cleanup_old_sessions, prior. simpl.
  destruct (data !! u') as [l|] eqn:Hl; [| done].
  rewrite !load_Json. by rewrite lookup_insert_ne.
Qed.

(** A record operation touches one user, one date, one month and at most
    one session: what [get_user_usage] returns for any other user is
    unchanged, and in the recording user's ledger every daily bucket of
    another date, every monthly bucket of another month and every session
    of another id is as before (all sessions, when the call carries no
    session id or an empty one). *)
Theorem track_usage_frame (f : file_content) (c : call) :
  (∀ u, u ≠ c_user c →
        get_user_usage u (track_call f c) = get_user_usage u f)
  ∧ ∃ l l',
      get_user_usage (c_user c) f = Ok l
      ∧ get_user_usage (c_user c) (track_call f c) = Ok l'
      ∧ (∀ d, d ≠ today (c_clock c) → daily l' !! d = daily l !! d)
      ∧ (∀ m, m ≠ current_month (c_clock c) → monthly l' !! m = monthly l !! m)
      ∧ (∀ sid, c_session c ≠ Some sid → sessions l' !! sid = sessions l !! sid)
      ∧ (truthy_opt (c_session c) = false → sessions l' = sessions l).
Proof.
  split.
  - intros u Hu. by rewrite !get_user_usage_prior, prior_track_call_other.
  - exists (prior (c_user c) f), (prior (c_user c) (track_call f c)).
    rewrite !get_user_usage_prior. split; [done |]. split; [done |].
    destruct (call_cost c) as [x | e] eqn:Hx.
    + rewrite (prior_track_call _ _ _ Hx).
      unfold apply_recorded, update_ledger. simpl.
      split; [intros d Hd; by rewrite lookup_insert_ne |].
      split; [intros m Hm; by rewrite lookup_insert_ne |].
      destruct (c_session c) as [s|]; [| done].
      simpl. destruct (truthy s) eqn:Hs; [| done].
      split; [| intros [=]].
      intros sid Hsid. rewrite lookup_insert_ne; congruence.
    + by rewrite (track_call_raise _ _ _ Hx).
Qed.

Lemma track_usage_frame_witness :
  get_user_usage "b@x.com"
    (track_call NoFile (call_at 0 "gpt-4" 1000000 0 None))
  = get_user_usage "b@x.com" NoFile.
Proof.
  apply (proj1 (track_usage_frame NoFile
                  (call_at 0 "gpt-4" 1000000 0 None))).
  discriminate.
Defined.

(** Read your writes: once a record call has completed, [get_daily_stats]
    for the call's user and date returns the statistics it returned before
    the call, each increased by the call's amounts. *)
Theorem record_then_daily_stats (f : file_content) (c : call) (x : float) :
  call_cost c = Ok x →
  ∃ st,
    get_daily_stats (today (c_clock c)) (c_user c) f = Ok st
    ∧ get_daily_stats (today (c_clock c)) (c_user c) (track_call f c)
      = Ok {| ds_tokens_input := ds_tokens_input st + c_input c;
              ds_tokens_output := ds_tokens_output st + c_output c;
              ds_tokens_total := ds_tokens_total st + (c_input c + c_output c);
              ds_cost := (ds_cost st + x)%float;
              ds_date := today (c_clock c) |}.
Proof.
  intros Hx. unfold get_daily_stats. rewrite !get_user_usage_prior. simpl.
  eexists. split; [reflexivity |].
  rewrite (prior_track_call _ _ _ Hx).
  by rewrite (daily_apply_recorded _ (c, x) _ eq_refl).
Qed.

Lemma record_then_daily_stats_witness :
  get_daily_stats "2026-11-04" "a@x.com"
    (track_call NoFile (call_at 0 "gpt-4" 1000000 1000000 None))
  = Ok {| ds_tokens_input := 1000000; ds_tokens_output := 1000000;
          ds_tokens_total := 2000000; ds_cost := 90;
          ds_date := "2026-11-04" |}.
Proof.
  destruct (record_then_daily_stats NoFile
              (call_at 0 "gpt-4" 1000000 1000000 None) 90%float)
    as (st & Hst & Hst'); [reflexivity |].
  injection Hst as <-. exact Hst'.
Defined.

(** ** Aggregates over arbitrary sequences of operations *)

Lemma recorded_ops_cons (o : op) (ops : list op) :
  recorded_ops (o :: ops)
  = match o with
    | Record c =>
        match call_cost c with
        | Ok x => (c, x) :: recorded_ops ops
        | Raise _ => recorded_ops ops
        end
    | Sweep _ _ _ => recorded_ops ops
    end.
Proof.
  unfold recorded_ops. simpl. destruct o as [c | now u k]; [| done].
  by destruct (call_cost c).
Qed.

Lemma prior_apply_sweep (now : datetime) (u u' : string) (k : Z)
    (f : file_content) :
  daily (prior u (cleanup_old_sessions now u' k f)) = daily (prior u f)
  ∧ monthly (prior u (cleanup_old_sessions now u' k f)) = monthly (prior u f)
  ∧ history (prior u (cleanup_old_sessions now u' k f)) = history (prior u f).
Proof.
  destruct (decide (u = u')) as [<- | Hne].
  - by rewrite prior_cleanup_same.
  - by rewrite prior_cleanup_other.
Qed.

Lemma daily_view_record (u d : string) (f : file_content) (c : call)
    (x : float) :
  call_cost c = Ok x →
  daily_view u d (track_call f c)
  = if decide (on_day u d (c, x))
    then bump_daily_with (daily_view u d f) (c, x)
    else daily_view u d f.
Proof.
  intros Hx. unfold daily_view, on_day. simpl.
  destruct (decide (u = c_user c)) as [-> | Hu].
  - rewrite (prior_track_call _ _ _ Hx).
    destruct (decide (today (c_clock c) = d)) as [<- | Hd].
    + rewrite decide_True by done.
      by rewrite (daily_apply_recorded _ (c, x) _ eq_refl).
    + rewrite decide_False by (by intros [_ ?]).
      unfold apply_recorded, update_ledger. simpl.
      by rewrite lookup_insert_ne.
  - rewrite decide_False by (by intros [? _]).
    by rewrite prior_track_call_other.
Qed.

Lemma monthly_view_record (u m : string) (f : file_content) (c : call)
    (x : float) :
  call_cost c = Ok x →
  monthly_view u m (track_call f c)
  = if decide (in_month u m (c, x))
    then bump_monthly_with (monthly_view u m f) (c, x)
    else monthly_view u m f.
Proof.
  intros Hx. unfold monthly_view, in_month. simpl.
  destruct (decide (u = c_user c)) as [-> | Hu].
  - rewrite (prior_track_call _ _ _ Hx).
    destruct (decide (current_month (c_clock c) = m)) as [<- | Hm].
    + rewrite decide_True by done.
      by rewrite (monthly_apply_recorded _ (c, x) _ eq_refl).
    + rewrite decide_False by (by intros [_ ?]).
      unfold apply_recorded, update_ledger. simpl.
      by rewrite lookup_insert_ne.
  - rewrite decide_False by (by intros [? _]).
    by rewrite prior_track_call_other.
Qed.

Lemma daily_view_ops (u d : string) (ops : list op) (f : file_content) :
  daily_view u d (foldl apply_op f ops)
  = foldl bump_daily_with (daily_view u d f)
          (filter (on_day u d) (recorded_ops ops)).
Proof.
  revert f. induction ops as [|o ops IH]; intros f; [done |].
  rewrite recorded_ops_cons.
  change (foldl apply_op f (o :: ops)) with (foldl apply_op (apply_op f o) ops).
  rewrite IH. destruct o as [c | now u' k]; simpl.
  - destruct (call_cost c) as [x | e] eqn:Hx.
    + rewrite (daily_view_record _ _ _ _ _ Hx), filter_cons.
      by destruct (decide (on_day u d (c, x))).
    + by rewrite (track_call_raise _ _ _ Hx).
  - unfold daily_view.
    by destruct (prior_apply_sweep now u u' k f) as (-> & _ & _).
Qed.

Lemma monthly_view_ops (u m : string) (ops : list op) (f : file_content) :
  monthly_view u m (foldl apply_op f ops)
  = foldl bump_monthly_with (monthly_view u m f)
          (filter (in_month u m) (recorded_ops ops)).
Proof.
  revert f. induction ops as [|o ops IH]; intros f; [done |].
  rewrite recorded_ops_cons.
  change (foldl apply_op f (o :: ops)) with (foldl apply_op (apply_op f o) ops).
  rewrite IH. destruct o as [c | now u' k]; simpl.
  - destruct (call_cost c) as [x | e] eqn:Hx.
    + rewrite (monthly_view_record _ _ _ _ _ Hx), filter_cons.
      by destruct (decide (in_month u m (c, x))).
    + by rewrite (track_call_raise _ _ _ Hx).
  - unfold monthly_view.
    by destruct (prior_apply_sweep now u u' k f) as (_ & -> & _).
Qed.

(** Conservation for any interleaving: whatever record and sweep operations
    are applied, by whatever users, on whatever dates and from whatever
    file, the token total of a user's daily bucket grows by exactly the
    tokens of that user's completed calls of that date, its cost by their
    costs added one by one, and likewise for the monthly bucket; calls of
    other users or dates, failed calls and sweeps contribute nothing. *)
Theorem aggregates_conserved (ops : list op) (f : file_content)
    (u d m : string) :
  let f' := foldl apply_op f ops in
  let es_d := entry_with <$> filter (on_day u d) (recorded_ops ops) in
  let es_m := entry_with <$> filter (in_month u m) (recorded_ops ops) in
  d_tokens_total (daily_view u d f')
  = d_tokens_total (daily_view u d f) + total_tokens es_d
  ∧ d_cost (daily_view u d f') = fsum (d_cost (daily_view u d f)) (cost <$> es_d)
  ∧ m_tokens_total (monthly_view u m f')
    = m_tokens_total (monthly_view u m f) + total_tokens es_m
  ∧ m_cost (monthly_view u m f')
    = fsum (m_cost (monthly_view u m f)) (cost <$> es_m).
Proof.
  intros f' es_d es_m. unfold f'.
  rewrite daily_view_ops, monthly_view_ops.
  destruct (foldl_bump_daily (filter (on_day u d) (recorded_ops ops))
                             (daily_view u d f)) as [Ht Hc].
  destruct (foldl_bump_monthly (filter (in_month u m) (recorded_ops ops))
                               (monthly_view u m f)) as [Ht' Hc'].
  by repeat split.
Qed.

Lemma total_tokens_nonneg (cxs : list (call * float)) :
  Forall (λ cx, 0 ≤ c_input cx.1 ∧ 0 ≤ c_output cx.1) cxs →
  0 ≤ total_tokens (entry_with <$> cxs).
Proof.
  induction 1 as [|cx cxs [? ?] _ IH]; [done |].
  change (0 ≤ (c_input cx.1 + c_output cx.1) + total_tokens (entry_with <$> cxs)).
  lia.
Qed.

Lemma Forall_filter_keep {A} (P Q : A → Prop) `{∀ x, Decision (Q x)}
    (l : list A) :
  Forall P l → Forall P (filter Q l).
Proof.
  induction 1 as [|x l Hx _ IH]; [constructor |].
  rewrite filter_cons. destruct (decide (Q x)); [by constructor | done].
Qed.

Lemma recorded_ops_nonneg (ops : list op) :
  Forall op_nonneg ops →
  Forall (λ cx, 0 ≤ c_input cx.1 ∧ 0 ≤ c_output cx.1) (recorded_ops ops).
Proof.
  induction 1 as [|o ops Ho _ IH]; [constructor |].
  rewrite recorded_ops_cons. destruct o as [c | now u k]; [| done].
  destruct (call_cost c); [by constructor | done].
Qed.

Lemma buckets_kept (ops : list op) (f : file_content) (u d m : string) :
  (is_Some (daily (prior u f) !! d) →
   is_Some (daily (prior u (foldl apply_op f ops)) !! d))
  ∧ (is_Some (monthly (prior u f) !! m) →
     is_Some (monthly (prior u (foldl apply_op f ops)) !! m)).
Proof.
  revert f. induction ops as [|o ops IH]; intros f; [done |].
  change (foldl apply_op f (o :: ops)) with (foldl apply_op (apply_op f o) ops).
  destruct (IH (apply_op f o)) as [IHd IHm].
  assert ((is_Some (daily (prior u f) !! d) →
           is_Some (daily (prior u (apply_op f o)) !! d))
          ∧ (is_Some (monthly (prior u f) !! m) →
             is_Some (monthly (prior u (apply_op f o)) !! m))) as [Hd Hm];
    [| by auto].
  destruct o as [c | now u' k]; simpl.
  - destruct (call_cost c) as [x | e] eqn:Hx;
      [| by rewrite (track_call_raise _ _ _ Hx)].
    destruct (decide (u = c_user c)) as [-> | Hu];
      [| by rewrite prior_track_call_other].
    rewrite (prior_track_call _ _ _ Hx).
    unfold apply_recorded, update_ledger. simpl.
    rewrite !lookup_insert. split; intros Hsome; case_decide; eauto.
  - by destruct (prior_apply_sweep now u u' k f) as (-> & -> & _).
Qed.

(** With non-negative token counts no token counter ever decreases: over
    any sequence of record and sweep operations, the total of every daily
    and monthly bucket of every user is at least what it was, and a bucket
    that exists is never removed. *)
Theorem counters_monotone (ops : list op) (f : file_content) (u d m : string) :
  Forall op_nonneg ops →
  let f' := foldl apply_op f ops in
  d_tokens_total (daily_view u d f) ≤ d_tokens_total (daily_view u d f')
  ∧ m_tokens_total (monthly_view u m f) ≤ m_tokens_total (monthly_view u m f')
  ∧ (is_Some (daily (prior u f) !! d) → is_Some (daily (prior u f') !! d))
  ∧ (is_Some (monthly (prior u f) !! m) → is_Some (monthly (prior u f') !! m)).
Proof.
  intros Hops f'.
  assert (d_tokens_total (daily_view u d f')
          = d_tokens_total (daily_view u d f)
            + total_tokens (entry_with <$> filter (on_day u d) (recorded_ops ops)))
    as Hd.
  { unfold f'. rewrite daily_view_ops. apply foldl_bump_daily. }
  assert (m_tokens_total (monthly_view u m f')
          = m_tokens_total (monthly_view u m f)
            + total_tokens (entry_with <$> filter (in_month u m) (recorded_ops ops)))
    as Hm.
  { unfold f'. rewrite monthly_view_ops. apply foldl_bump_monthly. }
  pose proof (recorded_ops_nonneg ops Hops) as Hnn.
  split; [rewrite Hd | split; [rewrite Hm | apply buckets_kept]].
  - pose proof (total_tokens_nonneg (filter (on_day u d) (recorded_ops ops))
                  (Forall_filter_keep _ _ _ Hnn)).
    lia.
  - pose proof (total_tokens_nonneg (filter (in_month u m) (recorded_ops ops))
                  (Forall_filter_keep _ _ _ Hnn)).
    lia.
Qed.

Lemma counters_monotone_witness :
  let ops := [Record (call_at 0 "gpt-4" 1000000 0 None);
              Sweep 5 "a@x.com" 7;
              Record (call_at 9 "gpt-4" 0 1000000 (Some "s1"))] in
  d_tokens_total (daily_view "a@x.com" "2026-11-04" NoFile)
  ≤ d_tokens_total
      (daily_view "a@x.com" "2026-11-04" (foldl apply_op NoFile ops)).
Proof.
  intros ops.
  apply (counters_monotone ops NoFile "a@x.com" "2026-11-04" "2026-11").
  repeat constructor; simpl; lia.
Defined.

(** ** Well-formed stores *)

Lemma length_trim_history (h : list UsageEvent) :
  (length (trim_history h) ≤ 1000)%nat.
Proof. rewrite trim_history_last_n, length_last_n. lia. Qed.

Lemma empty_ledger_wf : ledger_wf EMPTY_LEDGER.
Proof.
  split; simpl; [lia |]. intros sid b. by rewrite lookup_empty.
Qed.

Lemma update_ledger_wf (clk : clock) (mdl : string) (i o : Z)
    (sid : option string) (x : float) (l : UserLedger) :
  ledger_wf l → ledger_wf (update_ledger clk mdl i o sid x l).
Proof.
  intros [Hlen Hs]. split; simpl; [apply length_trim_history |].
  destruct sid as [s|]; [| exact Hs].
  destruct (truthy s) eqn:Htruthy; [| exact Hs].
  intros sid b. destruct (decide (s = sid)) as [<- | Hne].
  - rewrite lookup_insert_eq. intros [= <-].
    split; [by destruct s |].
    destruct (sessions l !! s) as [b0|] eqn:Hb0; simpl.
    + destruct (Hs s b0 Hb0) as (_ & Ht & Hst & _).
      split; [lia |]. split; [done | eauto].
    + split; [lia |]. split; eauto.
  - rewrite lookup_insert_ne by done. apply Hs.
Qed.

Lemma sweep_ledger_wf (cutoff : datetime) (l : UserLedger) :
  ledger_wf l → ledger_wf (sweep_ledger cutoff l).
Proof.
  intros [Hlen Hs]. split; [done |].
  intros sid b [Hb _]%sweep_ledger_sessions. by apply Hs.
Qed.

Lemma prior_wf (u : string) (f : file_content) :
  file_wf f → ledger_wf (prior u f).
Proof.
  intros Hf. unfold prior.
  destruct (load_or_empty f !! u) as [l|] eqn:Hl; simpl;
    [by eapply Hf | apply empty_ledger_wf].
Qed.

Lemma apply_op_wf (f : file_content) (o : op) :
  file_wf f → file_wf (apply_op f o).
Proof.
  intros Hf. destruct o as [c | now u k]; simpl.
  - destruct (call_cost c) as [x | e] eqn:Hx;
      [| by rewrite (track_call_raise _ _ _ Hx)].
    rewrite (track_call_ok _ _ _ Hx). intros u l. rewrite load_Json.
    destruct (decide (c_user c = u)) as [<- | Hne].
    + rewrite lookup_insert_eq. intros [= <-].
      by apply update_ledger_wf, prior_wf.
    + rewrite lookup_insert_ne by done. apply Hf.
  - unfold cleanup_old_sessions. destruct f as [| | | data]; simpl; try done.
    destruct (data !! u) as [l|] eqn:Hl; [| done].
    intros u' l'. rewrite load_Json.
    destruct (decide (u = u')) as [<- | Hne].
    + rewrite lookup_insert_eq. intros [= <-].
      by apply sweep_ledger_wf, (Hf u l).
    + rewrite lookup_insert_ne by done. apply Hf.
Qed.

Lemma ops_wf (ops : list op) (f : file_content) :
  file_wf f → file_wf (foldl apply_op f ops).
Proof.
  revert f. induction ops as [|o ops IH]; intros f Hf; simpl; [done |].
  by apply IH, apply_op_wf.
Qed.

(** In every store that record and sweep operations produce from a fresh
    file, whoever the users and whatever the order: no history exceeds 1000
    entries, no session is keyed by the empty string, and every session
    has [tokens_total = tokens_input + tokens_output] and carries both
    [started_at] and [last_updated], so that the sweep decides on
    [last_updated] alone and never skips a session for want of a
    timestamp. *)
Theorem reachable_store_well_formed (ops : list op) (u : string)
    (l : UserLedger) :
  ledger_of u (foldl apply_op NoFile ops) = Some l →
  (length (history l) ≤ 1000)%nat
  ∧ ∀ sid b, sessions l !! sid = Some b →
      sid ≠ ""
      ∧ s_tokens_total b = s_tokens_input b + s_tokens_output b
      ∧ (∃ t, started_at b = Some t)
      ∧ (∃ t, last_updated b = Some t
              ∧ ∀ cutoff, is_stale cutoff b = true ↔ t < cutoff).
Proof.
  intros Hl.
  assert (file_wf (foldl apply_op NoFile ops)) as Hwf.
  { apply ops_wf. intros u' l'.
    change (load_or_empty NoFile) with (∅ : UsageStore). by rewrite lookup_empty. }
  destruct (foldl apply_op NoFile ops) as [| | | data]; try done.
  destruct (Hwf u l Hl) as [Hlen Hs]. split; [done |].
  intros sid b Hb. destruct (Hs sid b Hb) as (Hne & Ht & Hst & [t Hlu]).
  split; [done |]. split; [done |]. split; [done |].
  exists t. split; [done |]. intros cutoff.
  unfold is_stale, session_stamp. rewrite Hlu. apply Z.ltb_lt.
Qed.

Lemma reachable_store_well_formed_witness :
  ∃ l, ledger_of "a@x.com"
         (foldl apply_op NoFile
                [Record (call_at 3 "gpt-4" 1000000 0 (Some "s1"))]) = Some l
       ∧ (length (history l) ≤ 1000)%nat.
Proof.
  assert (call_cost (call_at 3 "gpt-4" 1000000 0 (Some "s1")) = Ok 30%float)
    as Hx by reflexivity.
  pose proof (ledger_of_track_call NoFile _ _ Hx) as Hl.
  eexists. split; [exact Hl |].
  exact (proj1 (reachable_store_well_formed
                  [Record (call_at 3 "gpt-4" 1000000 0 (Some "s1"))]
                  "a@x.com" _ Hl)).
Defined.

(** ** Reporting endpoints *)

Lemma float_pos_nonzero (b : float) :
  (0 <? b)%float = true → (b =? 0)%float = false.
Proof.
  rewrite FloatAxioms.ltb_spec, FloatAxioms.eqb_spec.
  change (Prim2SF 0) with (S754_zero false).
  destruct (Prim2SF b) as [s | s | | s m e]; simpl; try done; by destruct s.
Qed.

Lemma float_pos_nonneg (b : float) :
  (0 <? b)%float = true → (0 <=? b)%float = true.
Proof.
  rewrite FloatAxioms.ltb_spec, FloatAxioms.leb_spec.
  change (Prim2SF 0) with (S754_zero false).
  destruct (Prim2SF b) as [s | s | | s m e]; simpl; try done; by destruct s.
Qed.

Lemma max_zero_nonneg (x : float) : (0 <=? max_zero x)%float = true.
Proof.
  unfold max_zero. destruct (0 <? x)%float eqn:Hx; [| reflexivity].
  by apply float_pos_nonneg.
Qed.

Lemma get_monthly_stats_ok (month u : string) (budget : float)
    (f : file_content) :
  get_monthly_stats month u budget f
  = Ok {| ms_tokens_total := m_tokens_total (monthly_view u month f);
          ms_cost := m_cost (monthly_view u month f);
          ms_budget := budget;
          ms_remaining := max_zero (budget - m_cost (monthly_view u month f));
          ms_percent_used :=
            if (0 <? budget)%float
            then (m_cost (monthly_view u month f) / budget * 100)%float
            else 0%float |}.
Proof.
  unfold get_monthly_stats. rewrite get_user_usage_prior. simpl.
  fold (monthly_view u month f).
  destruct (0 <? budget)%float eqn:Hb; [| reflexivity].
  unfold float_truediv. by rewrite (float_pos_nonzero _ Hb).
Qed.

(** [get_monthly_stats] returns for every budget and every store, the
    division by the budget being made only when the budget compares
    greater than zero: with a zero, negative or NaN budget the percentage
    is 0.  The remaining budget is never negative and never NaN. *)
Theorem monthly_stats_safe (month u : string) (budget : float)
    (f : file_content) :
  ∃ st,
    get_monthly_stats month u budget f = Ok st
    ∧ ms_budget st = budget
    ∧ (0 <=? ms_remaining st)%float = true
    ∧ ((0 <? budget)%float = false → ms_percent_used st = 0%float)
    ∧ ((0 <? budget)%float = true →
       ms_percent_used st = (ms_cost st / budget * 100)%float).
Proof.
  eexists. split; [apply get_monthly_stats_ok |]. simpl.
  split; [done |]. split; [apply max_zero_nonneg |].
  split; intros ->; reflexivity.
Qed.

Lemma monthly_stats_safe_witness :
  ∃ st, get_monthly_stats "2026-11" "a@x.com" 0
          (track_call NoFile (call_at 0 "gpt-4" 1000000 1000000 None)) = Ok st
        ∧ ms_percent_used st = 0%float.
Proof.
  destruct (monthly_stats_safe "2026-11" "a@x.com" 0
              (track_call NoFile (call_at 0 "gpt-4" 1000000 1000000 None)))
    as (st & Hst & _ & _ & Hzero & _).
  exists st. split; [exact Hst |]. apply Hzero. reflexivity.
Defined.

(** Read your writes, monthly: after a completed record call the monthly
    statistics of the call's user and month show the previous token total
    and cost increased by the call's tokens and cost. *)
Theorem record_then_monthly_stats (f : file_content) (c : call) (x : float)
    (budget : float) :
  call_cost c = Ok x →
  ∃ st st',
    get_monthly_stats (current_month (c_clock c)) (c_user c) budget f = Ok st
    ∧ get_monthly_stats (current_month (c_clock c)) (c_user c) budget
        (track_call f c) = Ok st'
    ∧ ms_tokens_total st' = ms_tokens_total st + (c_input c + c_output c)
    ∧ ms_cost st' = (ms_cost st + x)%float.
Proof.
  intros Hx. eexists _, _.
  split; [apply get_monthly_stats_ok |].
  split; [apply get_monthly_stats_ok |]. simpl.
  rewrite (monthly_view_record _ _ _ _ _ Hx).
  rewrite decide_True by done. done.
Qed.

Lemma record_then_monthly_stats_witness :
  ∃ st, get_monthly_stats "2026-11" "a@x.com" 3000
          (track_call NoFile (call_at 0 "gpt-4" 1000000 1000000 None)) = Ok st
        ∧ ms_tokens_total st = 2000000.
Proof.
  destruct (record_then_monthly_stats NoFile
              (call_at 0 "gpt-4" 1000000 1000000 None) 90%float 3000%float)
    as (st & st' & Hst & Hst' & Ht & _); [reflexivity |].
  exists st'. split; [exact Hst' |].
  rewrite Ht. rewrite get_monthly_stats_ok in Hst. injection Hst as <-.
  reflexivity.
Defined.

(** ** Session statistics *)

Lemma key_gt_trans (a b c : option datetime) :
  key_gt a b = true → key_gt b c = true → key_gt a c = true.
Proof.
  destruct a as [x|], b as [y|], c as [z|]; simpl; try done.
  rewrite !Z.ltb_lt. lia.
Qed.

Lemma key_gt_total (a b : option datetime) :
  key_gt a b = false → key_gt b a = false → a = b.
Proof.
  destruct a as [x|], b as [y|]; simpl; try done.
  rewrite !Z.ltb_ge. intros. f_equal. lia.
Qed.

(** [max] returns an item of the sequence that no item exceeds. *)
Lemma max_by_stamp_spec (best : string * SessionBucket)
    (rest : list (string * SessionBucket)) :
  max_by_stamp best rest ∈ best :: rest
  ∧ ∀ y, y ∈ best :: rest →
         key_gt (session_stamp y.2) (session_stamp (max_by_stamp best rest).2)
         = false.
Proof.
  revert best. induction rest as [|x rest IH]; intros best; simpl.
  - split; [by left |]. intros y ->%list_elem_of_singleton.
    by destruct (session_stamp best.2); simpl; [apply Z.ltb_irrefl |].
  - destruct (key_gt (session_stamp x.2) (session_stamp best.2)) eqn:Hx.
    + destruct (IH x) as [Hin Hmax]. split.
      * apply elem_of_cons in Hin as [-> | Hin]; [right; by left |].
        by do 2 right.
      * intros y [-> | Hy]%elem_of_cons; [| by apply Hmax].
        destruct (key_gt (session_stamp best.2)
                    (session_stamp (max_by_stamp x rest).2)) eqn:Hb; [| done].
        pose proof (key_gt_trans _ _ _ Hx Hb) as Hxm.
        rewrite (Hmax x) in Hxm; [done | by left].
    + destruct (IH best) as [Hin Hmax]. split.
      * apply elem_of_cons in Hin as [-> | Hin]; [by left |].
        by do 2 right.
      * intros y [-> | [-> | Hy]%elem_of_cons]%elem_of_cons.
        -- apply Hmax. by left.
        -- destruct (key_gt (session_stamp x.2)
                       (session_stamp (max_by_stamp best rest).2)) eqn:Hb;
             [| done].
           destruct (key_gt (session_stamp best.2)
                       (session_stamp (max_by_stamp best rest).2)) eqn:Hbm.
           { rewrite (Hmax best) in Hbm; [done | by left]. }
           destruct (key_gt (session_stamp (max_by_stamp best rest).2)
                       (session_stamp best.2)) eqn:Hmb.
           ++ by rewrite (key_gt_trans _ _ _ Hb Hmb) in Hx.
           ++ rewrite (key_gt_total _ _ Hbm Hmb) in Hx. congruence.
        -- apply Hmax. by right.
Qed.

Lemma get_session_stats_recent
    (items : gmap string SessionBucket → list (string * SessionBucket))
    (u : string) (sid : option string) (f : file_content) :
  (∀ m, items m ≡ₚ map_to_list m) →
  (∀ s, sid = Some s → truthy s = true → sessions (prior u f) !! s = None) →
  sessions (prior u f) ≠ ∅ →
  ∃ k b,
    sessions (prior u f) !! k = Some b
    ∧ get_session_stats items u sid f = Ok (session_stats_of b)
    ∧ ∀ k' b', sessions (prior u f) !! k' = Some b' →
               key_gt (session_stamp b') (session_stamp b) = false.
Proof.
  intros Hitems Hsid Hne. unfold get_session_stats.
  rewrite get_user_usage_prior. simpl.
  assert (match sid with
          | Some s => if truthy s then sessions (prior u f) !! s else None
          | None => None
          end = None) as ->.
  { destruct sid as [s|]; [| done].
    destruct (truthy s) eqn:Hs; [by apply Hsid | done]. }
  pose proof (Hitems (sessions (prior u f))) as Hperm.
  destruct (items (sessions (prior u f))) as [|first rest] eqn:Hit.
  - symmetry in Hperm. apply Permutation_nil_r in Hperm.
    by apply map_to_list_empty_iff in Hperm.
  - destruct (max_by_stamp_spec first rest) as [Hin Hmax].
    destruct (max_by_stamp first rest) as [k b] eqn:Hbest.
    exists k, b. split; [| split; [done |]].
    + apply elem_of_map_to_list. by rewrite <- Hperm.
    + intros k' b' Hb'. apply (Hmax (k', b')).
      rewrite Hperm. by apply elem_of_map_to_list.
Qed.

(** [get_session_stats]: a non-empty session id that the user has selects
    that session; without an id, with an empty one or with an unknown one,
    the answer is a session whose [last_updated] (else [started_at]) no
    other session of the user exceeds; a user without sessions gets
    zeros.  This holds whatever the iteration order of the sessions. *)
Theorem session_stats_choice
    (items : gmap string SessionBucket → list (string * SessionBucket))
    (u : string) (sid : option string) (f : file_content) :
  (∀ m, items m ≡ₚ map_to_list m) →
  let ss := sessions (prior u f) in
  (∀ s b, sid = Some s → s ≠ "" → ss !! s = Some b →
          get_session_stats items u sid f = Ok (session_stats_of b))
  ∧ (ss = ∅ → get_session_stats items u sid f = Ok zero_session_stats)
  ∧ ((∀ s, sid = Some s → s ≠ "" → ss !! s = None) → ss ≠ ∅ →
     ∃ k b, ss !! k = Some b
            ∧ get_session_stats items u sid f = Ok (session_stats_of b)
            ∧ ∀ k' b', ss !! k' = Some b' →
                       key_gt (session_stamp b') (session_stamp b) = false).
Proof.
  intros Hitems ss. split; [| split].
  - intros s b -> Hs Hb. unfold get_session_stats.
    rewrite get_user_usage_prior. simpl. fold ss. rewrite Hb.
    by destruct s.
  - intros Hempty. unfold get_session_stats.
    rewrite get_user_usage_prior. simpl. fold ss. rewrite Hempty.
    assert (items ∅ = []) as ->.
    { apply Permutation_nil_r. rewrite (Hitems ∅). by rewrite map_to_list_empty. }
    destruct sid as [s|]; [| done].
    destruct (truthy s); [by rewrite lookup_empty | done].
  - intros Hsid Hne. apply get_session_stats_recent; [done | | done].
    intros s -> Hs. apply Hsid; [done |]. by destruct s.
Qed.

Lemma session_stats_choice_witness :
  get_session_stats map_to_list "a@x.com" (Some "s1")
    (track_call NoFile (call_at 3 "gpt-4" 1000000 0 (Some "s1")))
  = Ok {| ss_tokens_input := 1000000; ss_tokens_output := 0;
          ss_tokens_total := 1000000; ss_cost := (0 + 30)%float |}
  ∧ get_session_stats map_to_list "a@x.com" None NoFile
    = Ok zero_session_stats.
Proof.
  split.
  - destruct (session_stats_choice map_to_list "a@x.com" (Some "s1")
                (track_call NoFile (call_at 3 "gpt-4" 1000000 0 (Some "s1"))))
      as (Hid & _ & _); [done |].
    rewrite (Hid "s1" (bump_session (new_session 3) 1000000 0 30%float 3));
      [reflexivity | reflexivity | discriminate |].
    assert (call_cost (call_at 3 "gpt-4" 1000000 0 (Some "s1")) = Ok 30%float)
      as Hx by reflexivity.
    rewrite (prior_track_call NoFile _ _ Hx
             : prior "a@x.com"
                 (track_call NoFile (call_at 3 "gpt-4" 1000000 0 (Some "s1")))
               = _).
    rewrite (sessions_apply_recorded _ (call_at 3 "gpt-4" 1000000 0 (Some "s1"))
               _ "s1" eq_refl) by discriminate.
    by rewrite lookup_insert_eq.
  - destruct (session_stats_choice map_to_list "a@x.com" None NoFile)
      as (_ & Hzero & _); [done |].
    apply Hzero. reflexivity.
Defined.

(** After a completed record call that carries a non-empty session id and
    whose timestamp is later than the timestamps of the user's other
    sessions, [get_session_stats] without a session id, as the stats
    endpoint calls it, returns the counters of the session just recorded. *)
Theorem session_stats_after_record
    (items : gmap string SessionBucket → list (string * SessionBucket))
    (f : file_content) (c : call) (x : float) (sid : string) :
  (∀ m, items m ≡ₚ map_to_list m) →
  call_cost c = Ok x →
  c_session c = Some sid → sid ≠ "" →
  (∀ k b, k ≠ sid → sessions (prior (c_user c) f) !! k = Some b →
          key_gt (Some (now_iso (c_clock c))) (session_stamp b) = true) →
  ∃ b, sessions (prior (c_user c) (track_call f c)) !! sid = Some b
       ∧ last_updated b = Some (now_iso (c_clock c))
       ∧ get_session_stats items (c_user c) None (track_call f c)
         = Ok (session_stats_of b).
Proof.
  intros Hitems Hx Hsid Hne Hnewer.
  pose proof (prior_track_call f c x Hx) as Hprior.
  pose proof (sessions_apply_recorded (prior (c_user c) f) c x sid Hsid Hne)
    as Hsess.
  rewrite <- Hprior in Hsess.
  eexists. split; [by rewrite Hsess, lookup_insert_eq |]. split; [done |].
  destruct (get_session_stats_recent items (c_user c) None (track_call f c))
    as (k & b & Hb & Hstats & Hmax); [done | done | |].
  { rewrite Hsess. apply insert_non_empty. }
  rewrite Hstats. f_equal. f_equal.
  rewrite Hsess in Hb. destruct (decide (sid = k)) as [<- | Hk].
  - rewrite lookup_insert_eq in Hb. by injection Hb as <-.
  - rewrite lookup_insert_ne in Hb by done. exfalso.
    assert (sessions (prior (c_user c) (track_call f c)) !! sid
            = Some (bump_session
                      (default (new_session (now_iso (c_clock c)))
                               (sessions (prior (c_user c) f) !! sid))
                      (c_input c) (c_output c) x (now_iso (c_clock c))))
      as Hlook by (by rewrite Hsess, lookup_insert_eq).
    pose proof (Hmax sid _ Hlook) as Hle.
    change (key_gt (Some (now_iso (c_clock c))) (session_stamp b) = false) in Hle.
    rewrite (Hnewer k b) in Hle; [done | congruence | exact Hb].
Qed.

Lemma session_stats_after_record_witness :
  ∃ b, get_session_stats map_to_list "a@x.com" None
         (track_calls [call_at 3 "gpt-4" 1000000 0 (Some "s1");
                       call_at 5 "gpt-4" 0 1000000 (Some "s2")] NoFile)
       = Ok (session_stats_of b)
       ∧ last_updated b = Some 5.
Proof.
  assert (call_cost (call_at 3 "gpt-4" 1000000 0 (Some "s1")) = Ok 30%float)
    as Hx1 by reflexivity.
  destruct (session_stats_after_record map_to_list
              (track_call NoFile (call_at 3 "gpt-4" 1000000 0 (Some "s1")))
              (call_at 5 "gpt-4" 0 1000000 (Some "s2")) 60%float "s2")
    as (b & _ & Hlu & Hstats); try done.
  - intros k b Hk.
    rewrite (prior_track_call NoFile _ _ Hx1
             : prior (c_user (call_at 5 "gpt-4" 0 1000000 (Some "s2")))
                 (track_call NoFile (call_at 3 "gpt-4" 1000000 0 (Some "s1")))
               = _).
    rewrite (sessions_apply_recorded _ (call_at 3 "gpt-4" 1000000 0 (Some "s1"))
               _ "s1" eq_refl) by discriminate.
    rewrite lookup_insert_Some. intros [[<- <-] | [_ Hb]]; [reflexivity |].
    exfalso. exact (lookup_empty_Some (M := gmap string) k b Hb).
  - exists b. split; [exact Hstats | exact Hlu].
Defined.

(** ** History endpoints *)







(** ** Statistics and tracking endpoints *)

(** [get_usage_stats] never answers HTTP 500, and for a user without
    recorded usage (store absent, empty, unparsable, or without an entry
    for the user) it answers zero-valued statistics with the default
    budgets, a remaining monthly budget of 3000 and 0 percent used. *)
Theorem usage_stats_no_data
    (items : gmap string SessionBucket → list (string * SessionBucket))
    (today_iso month u : string) (f : file_content) :
  (∃ r, get_usage_stats items today_iso month u f = Http200 r)
  ∧ (items ∅ = [] →
     ledger_of u f = None →
     get_usage_stats items today_iso month u f
     = Http200
         {| r_daily := {| ds_tokens_input := 0; ds_tokens_output := 0;
                          ds_tokens_total := 0; ds_cost := 0;
                          ds_date := today_iso |};
            r_monthly := {| ms_tokens_total := 0; ms_cost := 0;
                            ms_budget := 3000; ms_remaining := 3000;
                            ms_percent_used := 0 |};
            r_session := zero_session_stats;
            r_budget_daily := 100; r_budget_monthly := 3000 |}).
Proof.
  split.
  - unfold get_usage_stats, get_daily_stats.
    rewrite get_monthly_stats_ok, get_user_usage_prior. simpl.
    unfold get_session_stats. rewrite get_user_usage_prior. simpl.
    destruct (items (sessions (prior u f))); eexists; reflexivity.
  - intros Hitems Hnone.
    assert (prior u f = EMPTY_LEDGER) as Hprior.
    { unfold prior. destruct f as [| | | data]; try done.
      simpl in Hnone. by rewrite load_Json, Hnone. }
    unfold get_usage_stats, get_daily_stats.
    rewrite get_monthly_stats_ok, get_user_usage_prior. simpl.
    unfold get_session_stats. rewrite get_user_usage_prior. simpl.
    unfold monthly_view. rewrite Hprior. simpl. rewrite Hitems.
    reflexivity.
Qed.

Lemma usage_stats_no_data_witness :
  ∃ r, get_usage_stats map_to_list "2026-11-04" "2026-11" "a@x.com" EmptyFile
       = Http200 r
       ∧ ms_remaining (r_monthly r) = 3000%float.
Proof.
  destruct (usage_stats_no_data map_to_list "2026-11-04" "2026-11" "a@x.com"
              EmptyFile) as [_ Hzero].
  eexists. split; [apply Hzero; reflexivity | reflexivity].
Defined.



(** ** Sweeps compose *)






(** ** Mutual exclusion *)

Lemma step_lock_inv (cs : list call) (i : nat) (s s' : system) :
  lock_inv s → step cs i s = Some s' → lock_inv s'.
Proof.
  intros Hinv Hstep. unfold step in Hstep.
  destruct (cs !! i) as [c|] eqn:Hc; [| done]. simpl in Hstep.
  destruct (pcs s !! i) as [p|] eqn:Hp; [| done]. simpl in Hstep.
  pose proof (lookup_lt_Some _ _ _ Hp) as Hi.
  assert (∀ p' f' lk',
            (holds_lock p' = true → lk' = Some i) →
            (∀ j q, j ≠ i → pcs s !! j = Some q → holds_lock q = true →
                    lk' = Some j) →
            lock_inv {| file := f'; lock := lk'; pcs := <[i := p']> (pcs s) |})
    as Hupdate.
  { intros p' f' lk' Hmine Hothers j q. simpl.
    destruct (decide (i = j)) as [<- | Hne].
    - rewrite list_lookup_insert_eq by done. intros [= <-]. exact Hmine.
    - rewrite list_lookup_insert_ne by done. intros Hq Hh.
      by apply (Hothers j q). }
  destruct p as [| x | x | x | x | x data | |]; simpl in Hstep.
  - destruct (call_cost c); injection Hstep as <-;
      apply Hupdate; try done; intros j q _; apply Hinv.
  - destruct (file s); injection Hstep as <-;
      apply Hupdate; try done; intros j q _; apply Hinv.
  - injection Hstep as <-. apply Hupdate; [done |]. intros j q _. apply Hinv.
  - destruct (lock s) as [holder|] eqn:Hlk; [done |]. injection Hstep as <-.
    apply Hupdate; [done |]. intros j q _ Hq Hh.
    pose proof (Hinv j q Hq Hh) as Hj. congruence.
  - injection Hstep as <-. apply Hupdate; [| intros j q _; apply Hinv].
    intros _. by apply (Hinv i (AtLoad x)).
  - injection Hstep as <-. apply Hupdate; [| intros j q _; apply Hinv].
    intros _. by apply (Hinv i (AtSave x data)).
  - injection Hstep as <-. apply Hupdate; [done |]. intros j q Hne Hq Hh.
    pose proof (Hinv j q Hq Hh) as Hj. pose proof (Hinv i AtUnlock Hp eq_refl).
    congruence.
  - done.
Qed.

(** The file lock gives mutual exclusion in every execution, whether the
    file existed or not: at no point do two callers stand between
    [flock(LOCK_EX)] and [flock(LOCK_UN)].  (The update lost when the file
    is missing is lost outside the lock, by the creation of the file.) *)
Theorem lock_mutual_exclusion (cs : list call) (f0 : file_content)
    (sched : list nat) (s : system) (i j : nat) (p q : pc) :
  run cs sched (initial cs f0) = Some s →
  pcs s !! i = Some p → pcs s !! j = Some q →
  holds_lock p = true → holds_lock q = true →
  i = j.
Proof.
  intros Hrun Hp Hq Hhp Hhq.
  assert (lock_inv s) as Hinv.
  { assert (lock_inv (initial cs f0)) as Hinit.
    { intros k r [-> _]%lookup_replicate. done. }
    revert Hrun Hinit. generalize (initial cs f0) as s0. clear.
    induction sched as [|k sched IH]; intros s0 Hrun Hinit.
    - by injection Hrun as <-.
    - simpl in Hrun. destruct (step cs k s0) as [s1|] eqn:Hstep; [| done].
      simpl in Hrun. eapply IH; [exact Hrun |]. by eapply step_lock_inv. }
  pose proof (Hinv i p Hp Hhp). pose proof (Hinv j q Hq Hhq). congruence.
Qed.

Lemma lock_mutual_exclusion_witness :
  ∃ s, run [caller_a; caller_b] [0; 0; 0; 0; 1; 1]%nat
           (initial [caller_a; caller_b] NoFile) = Some s
       ∧ pcs s !! 0%nat = Some (AtLoad 90)
       ∧ ∀ j q, pcs s !! j = Some q → holds_lock q = true → j = 0%nat.
Proof.
  eexists. split; [vm_compute; reflexivity |]. split; [reflexivity |].
  intros j q Hq Hh. symmetry.
  eapply (lock_mutual_exclusion [caller_a; caller_b] NoFile
            [0; 0; 0; 0; 1; 1]%nat _ 0%nat j (AtLoad 90) q).
  - vm_compute. reflexivity.
  - reflexivity.
  - exact Hq.
  - reflexivity.
  - exact Hh.
Defined.

Lemma serial_when_file_exists_witness :
  ∃ s order,
    run [caller_a; caller_b] fair_schedule
        (initial [caller_a; caller_b] (Json ∅)) = Some s
    ∧ order ≡ₚ [caller_a; caller_b]
    ∧ file s = track_calls order (Json ∅).
Proof.
  assert (run [caller_a; caller_b] fair_schedule
              (initial [caller_a; caller_b] (Json ∅))
          = Some {| file :=
                      Json (apply_usage (clock_at 1) "a@x.com" "gpt-4"
                              1000000 0 None 30%float
                              (apply_usage (clock_at 0) "a@x.com" "gpt-4"
                                 1000000 1000000 None 90%float ∅));
                    lock := None; pcs := [Finished; Finished] |}) as Hrun
    by reflexivity.
  assert (Json (∅ : UsageStore) ≠ NoFile) as Hex by discriminate.
  destruct (serial_when_file_exists _ _ _ _ Hex Hrun)
    as (order & Hperm & Hfile); [by repeat constructor |].
  eexists _, order. split; [exact Hrun |]. split; [exact Hperm | exact Hfile].
Defined.


(** ** Text chunking *)


Lemma len_nonneg (s : list N) : 0 ≤ len s.
Proof. unfold len. lia. Qed.









Lemma words_visible (s : list N) :
  Forall (λ w, Exists (λ c, is_space c = false) w) (words s).
Proof.
  induction s as [|c s IH]; simpl; [constructor |].
  destruct (is_space c) eqn:Hc; [done |].
  destruct s as [|c' s']; [by repeat constructor |].
  destruct (is_space c') eqn:Hc'; [by repeat constructor |].
  destruct (words (c' :: s')) as [|w ws].
  - by repeat constructor.
  - inv IH. constructor; [by left | done].
Qed.

Lemma lstrip_visible (s : list N) :
  Exists (λ c, is_space c = false) s →
  Exists (λ c, is_space c = false) (lstrip s).
Proof.
  induction s as [|c s IH]; [done |]. simpl.
  destruct (is_space c) eqn:Hc; [| done].
  intros [Hx | Hx]%Exists_cons; [congruence | by apply IH].
Qed.

Lemma reverse_visible (s : list N) :
  Exists (λ c, is_space c = false) s →
  Exists (λ c, is_space c = false) (reverse s).
Proof.
  rewrite !Exists_exists. intros (c & Hin & Hc). exists c.
  split; [by apply elem_of_reverse | done].
Qed.

Lemma strip_visible (s : list N) :
  Exists (λ c, is_space c = false) s → strip s ≠ [].
Proof.
  intros Hs. unfold strip.
  assert (Exists (λ c, is_space c = false)
                 (reverse (lstrip (reverse (lstrip s))))) as Hex.
  { by apply reverse_visible, lstrip_visible, reverse_visible, lstrip_visible. }
  intros Heq. rewrite Heq in Hex. by inv Hex.
Qed.

(** No chunk so far is empty, and the chunk being built from words is
    empty or has a visible character. *)
Definition solid (st : list (list N) * list N) : Prop :=
  Forall (λ c, c ≠ []) st.1
  ∧ (st.2 = [] ∨ Exists (λ c, is_space c = false) st.2).

Lemma add_word_solid (max_length : Z) (st : list (list N) * list N)
    (word : list N) :
  Exists (λ c, is_space c = false) word →
  solid st → solid (add_word max_length st word).
Proof.
  intros Hw [Hchunks Htemp]. destruct st as [chunks temp]. simpl in *.
  unfold add_word.
  destruct (len temp + len word + 1 <=? max_length).
  - split; [done |]. right. simpl.
    apply Exists_app. right. apply Exists_app. by left.
  - split; simpl.
    + destruct temp as [|c temp]; [done |]. simpl.
      apply Forall_app. split; [done |]. constructor; [| constructor].
      destruct Htemp as [[=] | Htemp]. by apply strip_visible.
    + right. apply Exists_app. by left.
Qed.

Lemma add_words_solid (max_length : Z) (ws : list (list N))
    (st : list (list N) * list N) :
  Forall (λ w, Exists (λ c, is_space c = false) w) ws →
  solid st → solid (foldl (add_word max_length) st ws).
Proof.
  intros Hws. revert st. induction Hws as [|w ws Hw _ IH]; intros st Hst; [done |].
  simpl. by apply IH, add_word_solid.
Qed.

Lemma add_sentence_solid (max_length : Z) (st : list (list N) * list N)
    (sentence : list N) :
  Forall (λ c, c ≠ []) st.1 →
  Forall (λ c, c ≠ []) (add_sentence max_length st sentence).1.
Proof.
  destruct st as [chunks current]. simpl. intros Hchunks.
  unfold add_sentence.
  destruct (len current + len sentence <=? max_length); [done |].
  assert (Forall (λ c, c ≠ [])
                 (if nonempty current then chunks ++ [current] else chunks))
    as Hchunks'.
  { destruct current as [|c current]; [done |]. simpl.
    apply Forall_app. split; [done |]. by repeat constructor. }
  destruct (max_length <? len sentence); [| done].
  apply add_words_solid; [apply words_visible |]. split; [done | by left].
Qed.

(** For a non-empty text no chunk is empty: an empty chunk is never sent
    to the translation service.  (A text of whitespace alone that is
    longer than [max_length] has no chunk at all.) *)
Theorem chunks_nonempty (text : list N) (max_length : Z) :
  text ≠ [] →
  Forall (λ c, c ≠ []) (_split_text_into_chunks text max_length).
Proof.
  intros Htext. unfold _split_text_into_chunks.
  destruct (len text <=? max_length); [by repeat constructor |].
  assert (Forall (λ c, c ≠ [])
            (foldl (add_sentence max_length) ([], []) (sentences text)).1)
    as Hchunks.
  { assert (Forall (λ c : list N, c ≠ []) (([], []) : list (list N) * list N).1)
      as Hinit by constructor.
    revert Hinit. generalize (([], []) : list (list N) * list N) as st.
    induction (sentences text) as [|s ss IH]; intros st Hst; [done |].
    simpl. by apply IH, add_sentence_solid. }
  destruct (foldl (add_sentence max_length) ([], []) (sentences text))
    as [chunks current]. simpl in *.
  destruct current as [|c current]; [done |]. simpl.
  apply Forall_app. split; [done |]. by repeat constructor.
Qed.

Lemma chunks_nonempty_witness :
  Forall (λ c, c ≠ []) (_split_text_into_chunks (codes "a.  . b") 3)
  ∧ _split_text_into_chunks (codes "      ") 5 = [].
Proof.
  split; [| reflexivity]. apply chunks_nonempty. discriminate.
Defined.

Lemma add_sentence_concat (max_length : Z) (st : list (list N) * list N)
    (sentence : list N) :
  len sentence ≤ max_length →
  let st' := add_sentence max_length st sentence in
  concat st'.1 ++ st'.2 = (concat st.1 ++ st.2) ++ sentence.
Proof.
  intros Hs st'. subst st'. destruct st as [chunks current].
  unfold add_sentence.
  destruct (len current + len sentence <=? max_length); simpl.
  { by rewrite app_assoc. }
  destruct (max_length <? len sentence) eqn:Hlt;
    [apply Z.ltb_lt in Hlt; lia |].
  destruct current as [|c current]; simpl.
  - by rewrite app_nil_r.
  - rewrite concat_app. simpl. by rewrite app_nil_r.
Qed.

(** When the text is longer than [max_length] and none of its sentences
    is, the chunks put end to end are the sentences put end to end: the
    text without the space that followed each ["!"], ["?"] and ["."] and
    without its ["|"] characters.  Sentences that share a chunk are sent to
    the service with no space between them. *)
Theorem chunks_concat (text : list N) (max_length : Z) :
  max_length < len text →
  Forall (λ s, len s ≤ max_length) (sentences text) →
  concat (_split_text_into_chunks text max_length) = concat (sentences text).
Proof.
  intros Hlong Hshort. unfold _split_text_into_chunks.
  apply Z.leb_gt in Hlong. rewrite Hlong.
  assert (∀ st,
            let st' := foldl (add_sentence max_length) st (sentences text) in
            concat st'.1 ++ st'.2
            = (concat st.1 ++ st.2) ++ concat (sentences text)) as Hfold.
  { induction Hshort as [|s ss Hs _ IH]; intros st; simpl.
    - by rewrite app_nil_r.
    - rewrite IH, (add_sentence_concat _ _ _ Hs). by rewrite <- app_assoc. }
  specialize (Hfold ([], [])). simpl in Hfold.
  destruct (foldl (add_sentence max_length) ([], []) (sentences text))
    as [chunks current]. simpl in *.
  rewrite <- Hfold. destruct current as [|c current]; simpl.
  - by rewrite app_nil_r.
  - rewrite concat_app. simpl. by rewrite app_nil_r.
Qed.

Lemma chunks_concat_witness :
  _split_text_into_chunks (codes "Ab. Cd. Ef.") 8
  = [codes "Ab.Cd."; codes "Ef."]
  ∧ concat (_split_text_into_chunks (codes "Ab. Cd. Ef.") 8)
    = codes "Ab.Cd.Ef.".
Proof.
  split; [reflexivity |].
  rewrite chunks_concat; [reflexivity | reflexivity |].
  apply Forall_forall. intros s Hs. vm_compute in Hs.
  repeat (apply elem_of_cons in Hs as [-> | Hs]; [by vm_compute |]).
  by apply elem_of_nil in Hs.
Defined.
